(** * Bookstore loader (commerce/bookstore/python/load_data.py)

    A shallow embedding of the data-loading script and of the parts of
    Python's [csv] module it drives, with the properties of the loader, the
    bootstrap sequence and the record parser stated over it.

    Layout:
    - [Csv]: the reader automaton of the [csv] module for the dialect the
      script selects ([delimiter=";"], [skipinitialspace=True], everything
      else as in the "excel" dialect) and [DictReader] on top of it;
    - [Py]: the values, exceptions and the state-and-exception monad in which
      the script runs (standard streams, client calls, files);
    - [Loader]: the functions of load_data.py, one definition per function;
    - [Spec]: the predicates the properties are stated with, and a small
      bookstore to run the script on;
    - [CsvFacts], [LoaderFacts], [PassFacts], [BootFacts]: the lemmas;
    - the properties of the script, C1 to C10. *)

From Stdlib Require Import String Ascii List ZArith Lia Bool DecimalString.
Import ListNotations.
Open Scope string_scope.
Open Scope list_scope.

(* ===================================================================== *)
(** ** The csv reader                                                     *)
(* ===================================================================== *)

Module Csv.

(** Characters the automaton distinguishes. *)
Definition LF : ascii := "010"%char.
Definition CR : ascii := "013"%char.
Definition delimiter : ascii := ";"%char.
Definition quotechar : ascii := "034"%char.
Definition space : ascii := " "%char.

Definition is_crlf (c : ascii) : bool := Ascii.eqb c LF || Ascii.eqb c CR.

(** States of the reader.  The dialect has no escape character, so the three
    escape states of the automaton are unreachable and left out. *)
Inductive ParserState :=
| START_RECORD
| START_FIELD
| IN_FIELD
| IN_QUOTED_FIELD
| QUOTE_IN_QUOTED_FIELD
| EAT_CRNL.

Definition state_eqb (a b : ParserState) : bool :=
  match a, b with
  | START_RECORD, START_RECORD
  | START_FIELD, START_FIELD
  | IN_FIELD, IN_FIELD
  | IN_QUOTED_FIELD, IN_QUOTED_FIELD
  | QUOTE_IN_QUOTED_FIELD, QUOTE_IN_QUOTED_FIELD
  | EAT_CRNL, EAT_CRNL => true
  | _, _ => false
  end.

(** The reader object: automaton state, the field being collected and the
    fields of the record collected so far. *)
Record Reader := mkReader {
  state : ParserState;
  field : string;
  fields : list string
}.

Definition parse_reset : Reader :=
  {| state := START_RECORD; field := ""; fields := [] |}.

(** [csv.field_size_limit()] default. *)
Definition field_limit : Z := 131072.

Definition parse_add_char (r : Reader) (c : ascii) : option Reader :=
  if Z.leb field_limit (Z.of_nat (String.length (field r))) then None
  else Some {| state := state r;
               field := (field r ++ String c "")%string;
               fields := fields r |}.

Definition parse_save_field (r : Reader) : Reader :=
  {| state := state r; field := ""; fields := fields r ++ [field r] |}.

Definition set_state (s : ParserState) (r : Reader) : Reader :=
  {| state := s; field := field r; fields := fields r |}.

(** One step of the automaton.  [None] as input is the end-of-line mark the
    reader feeds after the characters of each line; [None] as result is
    [csv.Error]. *)
Definition parse_process_char (r : Reader) (c : option ascii) : option Reader :=
  let start_field :=
    match c with
    | None => Some (set_state START_RECORD (parse_save_field r))
    | Some ch =>
        if is_crlf ch then Some (set_state EAT_CRNL (parse_save_field r))
        else if Ascii.eqb ch quotechar then Some (set_state IN_QUOTED_FIELD r)
        else if Ascii.eqb ch space then Some (set_state START_FIELD r)
        else if Ascii.eqb ch delimiter then
          Some (set_state START_FIELD (parse_save_field r))
        else option_map (set_state IN_FIELD) (parse_add_char r ch)
    end in
  match state r with
  | START_RECORD =>
      match c with
      | None => Some r
      | Some ch => if is_crlf ch then Some (set_state EAT_CRNL r) else start_field
      end
  | START_FIELD => start_field
  | IN_FIELD =>
      match c with
      | None => Some (set_state START_RECORD (parse_save_field r))
      | Some ch =>
          if is_crlf ch then Some (set_state EAT_CRNL (parse_save_field r))
          else if Ascii.eqb ch delimiter then
            Some (set_state START_FIELD (parse_save_field r))
          else parse_add_char r ch
      end
  | IN_QUOTED_FIELD =>
      match c with
      | None => Some r
      | Some ch =>
          if Ascii.eqb ch quotechar then Some (set_state QUOTE_IN_QUOTED_FIELD r)
          else parse_add_char r ch
      end
  | QUOTE_IN_QUOTED_FIELD =>
      match c with
      | None => Some (set_state START_RECORD (parse_save_field r))
      | Some ch =>
          if Ascii.eqb ch quotechar then
            option_map (set_state IN_QUOTED_FIELD) (parse_add_char r ch)
          else if Ascii.eqb ch delimiter then
            Some (set_state START_FIELD (parse_save_field r))
          else if is_crlf ch then
            Some (set_state EAT_CRNL (parse_save_field r))
          else option_map (set_state IN_FIELD) (parse_add_char r ch)
      end
  | EAT_CRNL =>
      match c with
      | None => Some (set_state START_RECORD r)
      | Some ch => if is_crlf ch then Some r else None
      end
  end.

(** The characters of one line, without the end-of-line mark.  (Readers
    before Python 3.11 also reject a NUL character in a line.) *)
Fixpoint process_chars (r : Reader) (line : string) : option Reader :=
  match line with
  | EmptyString => Some r
  | String c rest =>
      match parse_process_char r (Some c) with
      | None => None
      | Some r' => process_chars r' rest
      end
  end.

Definition process_line (r : Reader) (line : string) : option Reader :=
  match process_chars r line with
  | None => None
  | Some r' => parse_process_char r' None
  end.

(** The rows the reader yields over the remaining lines, starting inside a
    record when [r] is not the reset reader.  A record is complete when the
    automaton is back in [START_RECORD] after a line; at the end of the input
    a record left open is still returned when it holds a field or is inside
    quotes. *)
Fixpoint reader_from (r : Reader) (lines : list string)
  : option (list (list string)) :=
  match lines with
  | [] =>
      if negb (Nat.eqb (String.length (field r)) 0)
         || state_eqb (state r) IN_QUOTED_FIELD
      then Some [fields (parse_save_field r)]
      else Some []
  | l :: rest =>
      match process_line r l with
      | None => None
      | Some r' =>
          if state_eqb (state r') START_RECORD
          then option_map (cons (fields r')) (reader_from parse_reset rest)
          else reader_from r' rest
      end
  end.

Definition reader (lines : list string) : option (list (list string)) :=
  reader_from parse_reset lines.

(** Iterating a text file: the lines with their terminator, the last one
    possibly without. *)
Fixpoint readlines_from (cur : string) (s : string) : list string :=
  match s with
  | EmptyString => match cur with EmptyString => [] | _ => [cur] end
  | String c rest =>
      if Ascii.eqb c LF
      then (cur ++ String c "")%string :: readlines_from "" rest
      else readlines_from (cur ++ String c "")%string rest
  end.

Definition readlines (s : string) : list string := readlines_from "" s.

(** *** DictReader *)

(** A row as [DictReader] returns it: keys are field names, or [None] for
    the [restkey]; values are strings, [None] for the [restval], or the list
    of surplus fields. *)
Inductive Value :=
| VStr (s : string)
| VNone
| VList (l : list string).

Definition Key := option string.
Definition Dict := list (Key * Value).

Definition key_eqb (a b : Key) : bool :=
  match a, b with
  | None, None => true
  | Some x, Some y => String.eqb x y
  | _, _ => false
  end.

(** [d[k] = v]: an existing key keeps its position. *)
Fixpoint dict_set (k : Key) (v : Value) (d : Dict) : Dict :=
  match d with
  | [] => [(k, v)]
  | (k', v') :: rest =>
      if key_eqb k k' then (k, v) :: rest else (k', v') :: dict_set k v rest
  end.

(** [d.get(k)] *)
Fixpoint dict_get (k : Key) (d : Dict) : option Value :=
  match d with
  | [] => None
  | (k', v) :: rest => if key_eqb k k' then Some v else dict_get k rest
  end.

Definition dict_of_pairs (kvs : list (Key * Value)) : Dict :=
  fold_left (fun d kv => dict_set (fst kv) (snd kv) d) kvs [].

Definition keys (d : Dict) : list Key := map fst d.

(** One data row against the field names. *)
Definition make_row (fieldnames row : list string) : Dict :=
  let d := dict_of_pairs
             (combine (map Some fieldnames) (map VStr row)) in
  let lf := length fieldnames in
  let lr := length row in
  if Nat.ltb lf lr then dict_set None (VList (skipn lf row)) d
  else if Nat.ltb lr lf then
    fold_left (fun d key => dict_set (Some key) VNone d) (skipn lr fieldnames) d
  else d.

Definition is_blank_row (row : list string) : bool :=
  match row with [] => true | _ => false end.

(** The rows of [DictReader(f, ...)] over the rows of the underlying reader:
    the first row gives the field names, blank rows after it are skipped. *)
Definition DictReader_rows (rows : list (list string)) : list Dict :=
  match rows with
  | [] => []
  | fieldnames :: data =>
      map (make_row fieldnames) (filter (fun r => negb (is_blank_row r)) data)
  end.

Definition DictReader (text : string) : option (list Dict) :=
  option_map DictReader_rows (reader (readlines text)).

(** A line on which the reader yields the empty row. *)
Definition blank_line (l : string) : bool :=
  forallb is_crlf (list_ascii_of_string l).

Definition has_lf (s : string) : bool :=
  existsb (Ascii.eqb LF) (list_ascii_of_string s).

(** No field of any row holds a line feed. *)
Definition no_embedded_newline (rows : list (list string)) : bool :=
  forallb (forallb (fun f => negb (has_lf f))) rows.

End Csv.

(* ===================================================================== *)
(** ** Values, exceptions and effects of the script                       *)
(* ===================================================================== *)

Module Py.

(** The exceptions that occur in a run. *)
Inductive Exn :=
| TypeError (msg : string)
| UnboundLocalError (name : string)
| FileNotFoundError (path : string)
| CsvError
| EOFError
| TypeDBClientException (msg : string)
| KeyboardInterrupt
| SystemExit (msg : string).

(** Subclasses of [Exception], the ones [except Exception] catches;
    [KeyboardInterrupt] and [SystemExit] derive from [BaseException] only. *)
Definition is_Exception (e : Exn) : bool :=
  match e with
  | KeyboardInterrupt | SystemExit _ => false
  | _ => true
  end.

(** [str(e)] *)
Definition str_exn (e : Exn) : string :=
  match e with
  | TypeError m | TypeDBClientException m | SystemExit m => m
  | UnboundLocalError n =>
      "local variable '" ++ n ++ "' referenced before assignment"
  | FileNotFoundError p => "[Errno 2] No such file or directory: '" ++ p ++ "'"
  | CsvError => "new-line character seen in unquoted field"
  | EOFError => "EOF when reading a line"
  | KeyboardInterrupt => ""
  end.

(** [str(n)] for an integer. *)
Definition str (n : Z) : string := NilZero.string_of_int (Z.to_int n).

(** [len(l)] *)
Definition len {A} (l : list A) : Z := Z.of_nat (length l).

(** The values that meet in the confirmation test, with Python's [or] and
    truth value. *)
Inductive PyVal :=
| PyBool (b : bool)
| PyStr (s : string).

Definition truthy (v : PyVal) : bool :=
  match v with
  | PyBool b => b
  | PyStr s => negb (String.eqb s "")
  end.

Definition py_or (a b : PyVal) : PyVal := if truthy a then a else b.

(** *** The database client

    The client library and the server behind it are outside the script.  A
    run records every call the script makes on the client, in order, with
    its outcome; whether a call raises, and what
    [databases().contains] answers, is the environment's choice and may
    depend on everything that happened before.  Leaving a [with] block
    closes the client, session or transaction and lets an exception pass;
    the closing itself is not recorded. *)
Inductive SessionType := SCHEMA | DATA.
Inductive TransactionType := READ | WRITE.

Record Session := mkSession {
  session_db : string;
  session_type : SessionType
}.

Inductive Call :=
| CoreClient (address : string)
| DatabasesContains (name : string)
| DatabaseDelete (name : string)
| DatabasesCreate (name : string)
| OpenSession (name : string) (t : SessionType)
| OpenTransaction (s : Session) (t : TransactionType)
| QueryMatch (q : string)
| QueryInsert (q : string)
| QueryDefine (q : string)
| Commit.

(** A call and the exception it raised, if any. *)
Abbreviation Event := (Call * option Exn)%type (only parsing).

(** Modelled from the spec: loaders.py is not among the sources.  A builder
    class has the capability set the spec gives it: it knows its source file
    path and builds an insert statement (or the empty string) from a record;
    [__name__] is the class name.  An instance is the class with the item it
    was created from. *)
Record InputClass := mkInput {
  __name__ : string;
  file : string;
  load : Csv.Dict -> string
}.

Record InputObject := mkObject {
  object_class : InputClass;
  object_item : Csv.Dict
}.

(** An argument of [print]. *)
Inductive PyArg :=
| PStr (s : string)
| PItem (d : Csv.Dict).

(** What the script is run against.  [db] and [Input_types_list] stand for
    [config.db] and [loaders.Input_types_list], which are not among the
    sources.  [files] gives the text of the files that can be opened, decoded
    and with its line ends translated to line feeds, as [open] in text mode
    delivers it. *)
Record Env := mkEnv {
  db : string;
  Input_types_list : list InputClass;
  files : string -> option string;
  fault : list Event -> Call -> option Exn;
  contains : list Event -> bool
}.

(** What a run changes: the lines left on standard input, the [print] calls
    made and the client calls made. *)
Record World := mkWorld {
  stdin : list string;
  stdout : list (list PyArg);
  log : list Event
}.

Inductive Res (A : Type) :=
| Ret (a : A)
| Raise (e : Exn).
Arguments Ret {A} a.
Arguments Raise {A} e.

Definition M (A : Type) : Type := World -> Res A * World.

Definition ret {A} (a : A) : M A := fun w => (Ret a, w).

Definition raise {A} (e : Exn) : M A := fun w => (Raise e, w).

Definition bind {A B} (m : M A) (k : A -> M B) : M B :=
  fun w =>
    match m w with
    | (Ret a, w') => k a w'
    | (Raise e, w') => (Raise e, w')
    end.

(** [try: body except: handler] *)
Definition try_except {A} (body : M A) (handler : Exn -> M A) : M A :=
  fun w =>
    match body w with
    | (Ret a, w') => (Ret a, w')
    | (Raise e, w') => handler e w'
    end.

(** [try: body except Exception as e: handler] *)
Definition try_except_Exception {A} (body : M A) (handler : Exn -> M A)
  : M A :=
  fun w =>
    match body w with
    | (Ret a, w') => (Ret a, w')
    | (Raise e, w') =>
        if is_Exception e then handler e w' else (Raise e, w')
    end.

Definition when (b : bool) (m : M unit) : M unit :=
  if b then m else ret tt.

Definition print (args : list PyArg) : M unit :=
  fun w =>
    (Ret tt, {| stdin := stdin w;
                stdout := stdout w ++ [args];
                log := log w |}).

(** The builtin [input(prompt)]. *)
Definition builtin_input (prompt : string) : M string :=
  fun w =>
    match stdin w with
    | [] =>
        (Raise EOFError, {| stdin := [];
                            stdout := stdout w ++ [[PStr prompt]];
                            log := log w |})
    | line :: rest =>
        (Ret line, {| stdin := rest;
                      stdout := stdout w ++ [[PStr prompt]];
                      log := log w |})
    end.

(** [exit(msg)] *)
Definition exit {A} (msg : string) : M A := raise (SystemExit msg).

Definition record_call (c : Call) (o : option Exn) (w : World) : World :=
  {| stdin := stdin w; stdout := stdout w; log := log w ++ [(c, o)] |}.

(** Subscripting a class object, [cls[key]]: the builder classes define no
    class-level item access. *)
Definition class_getitem (cls : InputClass) (key : string) : M string :=
  raise (TypeError "'type' object is not subscriptable").

Module Notations.
Declare Scope py_scope.
Delimit Scope py_scope with py.
Notation "x <- m ;; k" := (bind m (fun x => k))
  (at level 61, m at next level, right associativity) : py_scope.
Notation "m ;; k" := (bind m (fun _ => k))
  (at level 61, right associativity) : py_scope.
End Notations.

End Py.

(* ===================================================================== *)
(** ** load_data.py                                                       *)
(* ===================================================================== *)

Module Loader.
Import Py Py.Notations.
Local Open Scope py_scope.

Section Script.

(** The module-level flag set once from the command line. *)
Variable debug : bool.
Variable env : Env.

(** A call on the client: it is recorded, and raises when the environment
    says so. *)
Definition call (c : Call) : M unit :=
  fun w =>
    match fault env (log w) c with
    | Some e => (Raise e, record_call c (Some e) w)
    | None => (Ret tt, record_call c None w)
    end.

(** [client.databases().contains(name)] *)
Definition databases_contains (name : string) : M bool :=
  call (DatabasesContains name) ;;
  fun w => (Ret (contains env (log w)), w).

(** [client.session(name, t)] *)
Definition client_session (name : string) (t : SessionType) : M Session :=
  call (OpenSession name t) ;;
  ret {| session_db := name; session_type := t |}.

(** [open(path)] followed by reading the text. *)
Definition open (path : string) : M string :=
  match files env path with
  | Some text => ret text
  | None => raise (FileNotFoundError path)
  end.

Definition address : string := "localhost:1729".

Definition parse_data_to_dictionaries (input : InputClass)
  : M (list Csv.Dict) :=
  when debug (f <- class_getitem input "file" ;;
              print [PStr ("Parsing of " ++ f ++ "started.")]) ;;
  data <- open (file input) ;;
  items <- match Csv.DictReader data with
           | Some rows => ret rows
           | None => raise CsvError
           end ;;
  when debug (f <- class_getitem input "file" ;;
              print [PStr ("Parsing of " ++ f ++ " successful.")]) ;;
  ret items.

(** The local variables of [load_data_into_typedb] that the loop assigns;
    [input_object] is unbound until the first iteration. *)
Record Locals := mkLocals {
  skip_count : Z;
  input_object : option InputObject
}.

(** The body of the loop over the items. *)
Definition loop_body (input : InputClass) (session : Session)
    (item : Csv.Dict) (l : Locals) : M Locals :=
  call (OpenTransaction session WRITE) ;;
  let input_object := {| object_class := input; object_item := item |} in
  let typeql_insert_query := load input item in
  if negb (String.eqb typeql_insert_query "") then
    when debug
      (print [PStr ("Executing TypeQL Query: " ++ typeql_insert_query)]) ;;
    call (QueryInsert typeql_insert_query) ;;
    call Commit ;;
    ret {| skip_count := skip_count l; input_object := Some input_object |}
  else
    when debug
      (print [PStr "Item parsing resulted in empty query statement. Skipping this item —";
              PItem item]) ;;
    ret {| skip_count := skip_count l + 1;
           input_object := Some input_object |}.

Fixpoint for_items (input : InputClass) (session : Session)
    (items : list Csv.Dict) (l : Locals) : M Locals :=
  match items with
  | [] => ret l
  | item :: rest =>
      l' <- loop_body input session item l ;;
      for_items input session rest l'
  end.

(** The line printed at the end of a pass. *)
Definition summary (total skipped : Z) (file_name class_name : string)
  : list PyArg :=
  [PStr ("Inserted " ++ str (total - skipped) ++ " out of " ++ str total
         ++ " items from [ " ++ file_name ++ "] into TypeDB with");
   PStr class_name].

Definition load_data_into_typedb (input : InputClass) (session : Session)
  : M unit :=
  items <- parse_data_to_dictionaries input ;;
  l <- for_items input session items
         {| skip_count := 0; input_object := None |} ;;
  match input_object l with
  | None => raise (UnboundLocalError "input_object")
  | Some o =>
      print (summary (len items) (skip_count l)
                     (file (object_class o)) (__name__ input))
  end.

Fixpoint for_input_types (session : Session) (types : list InputClass)
  : M unit :=
  match types with
  | [] => ret tt
  | input_type :: rest =>
      when debug (print [PStr ("Loading from [" ++ file input_type
                               ++ "] into TypeDB ...")]) ;;
      load_data_into_typedb input_type session ;;
      for_input_types session rest
  end.

Definition load_data : M unit :=
  call (CoreClient address) ;;
  session <- client_session (db env) DATA ;;
  for_input_types session (Input_types_list env) ;;
  print [PStr (String Csv.LF "Data loading complete!")].

Definition typeql_read_query : string :=
  "match $b isa book, has ISBN $x; get $x; limit 3;".

Definition has_existing_data : M bool :=
  call (CoreClient address) ;;
  session <- client_session (db env) SCHEMA ;;
  call (OpenTransaction session READ) ;;
  try_except
    (call (QueryMatch typeql_read_query) ;;
     print [PStr "The DB contains the schema and loaded data already."] ;;
     ret true)
    (fun _ => ret false).

Definition load_schema : M bool :=
  call (CoreClient address) ;;
  session <- client_session (db env) SCHEMA ;;
  define_query <- open "../schema.tql" ;;
  call (OpenTransaction session WRITE) ;;
  try_except_Exception
    (call (QueryDefine define_query) ;;
     call Commit ;;
     print [PStr ("Loaded the " ++ db env ++ " schema.")] ;;
     ret true)
    (fun e =>
       print [PStr ("Failed to load schema: " ++ str_exn e)] ;;
       ret false).

(** The test of the confirmation prompt,
    [answer == "delete" or "Delete" or "DELETE"]. *)
Definition confirmed (answer : string) : bool :=
  truthy (py_or (py_or (PyBool (String.eqb answer "delete")) (PyStr "Delete"))
                (PyStr "DELETE")).

(** [if load_schema(): load_data()], the tail of each of the three branches
    of the main body. *)
Definition schema_then_data : M unit :=
  ok <- load_schema ;;
  if ok then load_data else ret tt.

(** The main body of the script. *)
Definition main : M unit :=
  call (CoreClient address) ;;
  present <- databases_contains (db env) ;;
  if present then
    print [PStr ("Detected DB " ++ db env ++ ". Connecting.")] ;;
    existing <- has_existing_data ;;
    if negb existing then
      print [PStr "Attempting to load the schema and data."] ;;
      schema_then_data
    else
      print [PStr "To reload data we will delete the existing DB... Please confirm!"] ;;
      answer <- builtin_input "Type in Delete to proceed with deletion: " ;;
      if confirmed answer then
        call (DatabaseDelete (db env)) ;;
        print [PStr ("Deleted DB " ++ db env ++ ".")] ;;
        call (DatabasesCreate (db env)) ;;
        print [PStr ("DB " ++ db env ++ " created. Applying schema...")] ;;
        schema_then_data
      else
        exit "Database was not deleted due to user choice. Exiting."
  else
    print [PStr ("DB " ++ db env ++ " is absent. Trying to create.")] ;;
    call (DatabasesCreate (db env)) ;;
    print [PStr ("DB " ++ db env ++ " created. Applying schema...")] ;;
    schema_then_data.

End Script.

(** The verbosity option: [args] is the parsed command line, of which only
    the [verbose] entry is used. *)
Definition verbosity (args_verbose : bool) : M bool :=
  if args_verbose then
    print [PStr "High verbosity option turned on."] ;; ret true
  else ret false.

Definition start (input_lines : list string) : World :=
  {| stdin := input_lines; stdout := []; log := [] |}.

(** One run of the script, from the command line to the end of the main
    body. *)
Definition run (args_verbose : bool) (env : Env) (input_lines : list string)
  : Res unit * World :=
  (debug <- verbosity args_verbose ;; main debug env) (start input_lines).

End Loader.

(* ===================================================================== *)
(** ** Vocabulary of the properties                                       *)
(* ===================================================================== *)

Module Spec.
Import Csv Py Py.Notations Loader.
Local Open Scope py_scope.

(** *** Reader invariants *)

Definition has_nl (r : Reader) : bool :=
  has_lf (field r) || existsb has_lf (fields r).

Definition ends_lf (l : string) : bool :=
  match rev (list_ascii_of_string l) with
  | c :: _ => Ascii.eqb c LF
  | [] => false
  end.

(** Every line but the last carries its terminator. *)
Fixpoint terminated_lines (ls : list string) : Prop :=
  match ls with
  | [] => True
  | l :: rest =>
      match rest with
      | [] => True
      | _ => ends_lf l = true /\ terminated_lines rest
      end
  end.

(** Outside a field the buffer is empty. *)
Definition buffer_ok (r : Reader) : Prop :=
  match state r with
  | START_RECORD | START_FIELD | EAT_CRNL => field r = ""
  | _ => True
  end.

(** Nothing of the record seen yet but line terminators. *)
Definition only_crlf_seen (r : Reader) : Prop :=
  (state r = START_RECORD \/ state r = EAT_CRNL) /\ fields r = [].

(** The record has a field, saved or under way. *)
Definition has_content (r : Reader) : Prop :=
  state r = START_FIELD \/ state r = IN_FIELD \/ state r = IN_QUOTED_FIELD \/
  state r = QUOTE_IN_QUOTED_FIELD \/ fields r <> [].

(** *** Traces of client calls *)

Definition succeeded (ev : Event) : Prop := snd ev = None.

(** The calls a data load makes. *)
Definition loader_call (c : Call) : bool :=
  match c with
  | CoreClient _ | OpenSession _ _ | OpenTransaction _ _
  | QueryInsert _ | Commit => true
  | _ => false
  end.

Definition is_insert (ev : Event) : bool :=
  match fst ev with QueryInsert _ => true | _ => false end.

Definition is_commit (ev : Event) : bool :=
  match fst ev with Commit => true | _ => false end.

Definition is_define (ev : Event) : bool :=
  match fst ev with QueryDefine _ => true | _ => false end.

(** How the calls of a data load relate to its result: the load makes only
    loader calls; all of them succeeded, or the load raised what its last
    call raised and the calls before it succeeded. *)
Definition outcome_shape {A} (r : Res A) (evs : list Event) : Prop :=
  Forall (fun ev => loader_call (fst ev) = true) evs /\
  (Forall succeeded evs \/
   exists e evs0 c,
     r = Raise e /\ evs = evs0 ++ [(c, Some e)] /\ Forall succeeded evs0).

Definition disciplined {A} (m : M A) : Prop :=
  forall w, exists evs,
    log (snd (m w)) = log w ++ evs /\
    stdin (snd (m w)) = stdin w /\
    outcome_shape (fst (m w)) evs.

(** *** The bootstrap sequence *)

(** Calls other than the submission of an insert statement or of a schema
    definition. *)
Definition plain (ev : Event) : bool :=
  negb (is_insert ev) && negb (is_define ev).

Definition plain_call (c : Call) : bool :=
  match c with
  | QueryInsert _ | QueryDefine _ => false
  | _ => true
  end.

(** What [load_schema] prints when the submission raised [e]. *)
Definition failure_message (e : Exn) : list PyArg :=
  [PStr ("Failed to load schema: " ++ str_exn e)].

(** The shapes the calls of a run can take, [out] being what the run has
    printed: no schema definition and no insert statement was submitted; or
    a single schema definition was submitted after plain calls only, and
    either it raised or its commit raised, which ends the calls and (for an
    [Exception]) is reported, or it was committed and loader calls follow. *)
Definition schema_shape (out : list (list PyArg)) (evs : list Event) : Prop :=
  Forall (fun ev => plain ev = true) evs \/
  exists p d o rest,
    evs = p ++ (QueryDefine d, o) :: rest /\
    Forall (fun ev => plain ev = true) p /\
    match o with
    | Some e =>
        rest = [] /\
        (is_Exception e = true -> In (failure_message e) out)
    | None =>
        (exists e,
           rest = [(Commit, Some e)] /\
           (is_Exception e = true -> In (failure_message e) out)) \/
        (exists data,
           rest = (Commit, None) :: data /\
           Forall (fun ev => loader_call (fst ev) = true) data)
    end.

Definition boots {A} (m : M A) : Prop :=
  forall w, exists evs,
    log (snd (m w)) = log w ++ evs /\
    Forall (fun ev => plain ev = true) evs.

Definition staged {A} (m : M A) : Prop :=
  forall w, exists evs,
    log (snd (m w)) = log w ++ evs /\
    schema_shape (stdout (snd (m w))) evs.

(** The calls [calls], made in this order after [done], all succeed. *)
Fixpoint all_succeed (env : Env) (done : list Event) (calls : list Call)
  : bool :=
  match calls with
  | [] => true
  | c :: rest =>
      match fault env done c with
      | None => all_succeed env (done ++ [(c, None)]) rest
      | Some _ => false
      end
  end.

Definition succeeded_calls (calls : list Call) : list Event :=
  map (fun c => (c, None)) calls.

Definition schema_session (env : Env) : Session :=
  {| session_db := db env; session_type := SCHEMA |}.

(** The calls up to and including the probe query on a database that is
    present. *)
Definition probe_calls (env : Env) : list Call :=
  [CoreClient address; DatabasesContains (db env);
   CoreClient address; OpenSession (db env) SCHEMA;
   OpenTransaction (schema_session env) READ;
   QueryMatch typeql_read_query].



(** *** Tallies of a pass *)

(** What subscripting a builder class raises. *)
Definition subscript_error : Exn :=
  TypeError "'type' object is not subscriptable".

(** The items for which the builder returns the empty statement, and the
    others. *)
Definition skipped_items (input : InputClass) (items : list Dict)
  : list Dict :=
  filter (fun item => String.eqb (load input item) "") items.

Definition submitted_items (input : InputClass) (items : list Dict)
  : list Dict :=
  filter (fun item => negb (String.eqb (load input item) "")) items.

(** The number of insert statements submitted among the calls [evs]. *)
Definition submissions (evs : list Event) : Z := len (filter is_insert evs).

(** *** A small bookstore

    A catalogue to run the script on: one builder class over a file of three
    books, one of them without ISBN, and a schema file. *)

(** Modelled from the spec: loaders.py is not among the sources.  A builder
    for books in the sense of the spec: the insert statement of a record
    that has an ISBN, the empty string for a record that lacks it. *)
Definition BookInput : InputClass :=
  {| __name__ := "BookInput";
     file := "data/books.csv";
     load := fun item =>
       match dict_get (Some "ISBN") item with
       | Some (VStr isbn) =>
           if String.eqb isbn "" then ""
           else ("insert $b isa book, has ISBN " ++ isbn ++ ";")%string
       | _ => ""
       end |}.

Definition books_csv : string :=
  "title;author;ISBN
Dune;Herbert;9780441172719
Emma;Austen
Ulysses;Joyce;9780199535675
".

Definition schema_tql : string := "define book sub entity, owns ISBN;".

Definition shop_files (books : string) (path : string) : option string :=
  if String.eqb path "data/books.csv" then Some books
  else if String.eqb path "../schema.tql" then Some schema_tql
  else None.

Definition no_fault : list Event -> Call -> option Exn :=
  fun _ _ => None.

(** The server rejects the first insert statement it is sent. *)
Definition first_insert_fails : list Event -> Call -> option Exn :=
  fun done c =>
    match c with
    | QueryInsert _ =>
        if existsb is_insert done then None
        else Some (TypeDBClientException "invalid insert")
    | _ => None
    end.

(** The probe query fails, as on a database without schema. *)
Definition probe_fails : list Event -> Call -> option Exn :=
  fun _ c =>
    match c with
    | QueryMatch _ => Some (TypeDBClientException "the type 'book' does not exist")
    | _ => None
    end.

Definition shop (books : string)
    (faults : list Event -> Call -> option Exn) (present : bool) : Env :=
  {| db := "bookstore";
     Input_types_list := [BookInput];
     files := shop_files books;
     fault := faults;
     contains := fun _ => present |}.

Definition data_session : Session :=
  {| session_db := "bookstore"; session_type := DATA |}.

(** *** Statements that do not hold of the script *)

(** A failed submission is swallowed: the pass still runs to its end and
    reports every item with a non-empty statement as inserted. *)
Definition failed_insert_swallowed (debug : bool) (env : Env)
    (input : InputClass) (session : Session) (w : World) : Prop :=
  let r := load_data_into_typedb debug env input session w in
  forall pre q e post,
    log (snd r) = log w ++ pre ++ (QueryInsert q, Some e) :: post ->
    exists text items,
      files env (file input) = Some text /\
      DictReader text = Some items /\
      fst r = Ret tt /\
      stdout (snd r) =
      stdout w ++ [summary (len items) (len (skipped_items input items))
                           (file input) (__name__ input)].

(** The first book's statement, and the failure the server answers it with
    under [first_insert_fails]. *)
Definition dune_insert : string :=
  "insert $b isa book, has ISBN 9780441172719;".

Definition invalid_insert : Exn := TypeDBClientException "invalid insert".

(** The second row of [books_csv], which has no ISBN. *)
Definition emma : Dict :=
  [(Some "title", VStr "Emma"); (Some "author", VStr "Austen");
   (Some "ISBN", VNone)].

(** A books file with the header line only. *)
Definition header_only_csv : string :=
  "title;author;ISBN
".

(** The server rejects the schema definition. *)
Definition invalid_schema : Exn := TypeDBClientException "invalid schema".

Definition define_fails : list Event -> Call -> option Exn :=
  fun _ c =>
    match c with
    | QueryDefine _ => Some invalid_schema
    | _ => None
    end.

(** A books file with an empty line between its two data rows. *)
Definition spaced_books_csv : string :=
  "title;author;ISBN
Dune;Herbert;9780441172719

Ulysses;Joyce;9780199535675
".

(** The record parser yields one record less than the file has lines,
    whenever no field holds a line break. *)
Definition parser_yields_lines_minus_one (env : Env) (input : InputClass)
    (w : World) : Prop :=
  forall text rows,
    files env (file input) = Some text ->
    reader (readlines text) = Some rows ->
    no_embedded_newline rows = true ->
    exists items,
      parse_data_to_dictionaries false env input w = (Ret items, w) /\
      len items = (len (readlines text) - 1)%Z.

End Spec.


(* ===================================================================== *)
(** ** Further vocabulary: lines of plain fields, whole loads, paths      *)
(* ===================================================================== *)

Module More.
Import Csv Py Py.Notations Loader Spec.
Local Open Scope py_scope.

(** *** Lines of plain fields *)

(** A character with no role in the dialect. *)
Definition plain_char (c : ascii) : bool :=
  negb (is_crlf c || Ascii.eqb c quotechar || Ascii.eqb c delimiter).

(** A field that needs no quoting and is read back as it stands: plain
    characters only, no space in front, within the field size limit. *)
Definition plain_field (f : string) : bool :=
  forallb plain_char (list_ascii_of_string f)
  && match f with
     | String c _ => negb (Ascii.eqb c space)
     | EmptyString => true
     end
  && Z.leb (Z.of_nat (String.length f)) field_limit.

Fixpoint spaces (n : nat) : string :=
  match n with
  | O => EmptyString
  | S k => String space (spaces k)
  end.

(** The line of a file that holds the given fields, each after the given
    number of spaces, with its terminator. *)
Fixpoint csv_line (fs : list (nat * string)) : string :=
  match fs with
  | [] => String LF ""
  | (n, f) :: rest =>
      match rest with
      | [] => (spaces n ++ f ++ String LF "")%string
      | _ => (spaces n ++ f ++ String delimiter (csv_line rest))%string
      end
  end.

(** The text of a file with the given lines. *)
Fixpoint csv_text (lines : list (list (nat * string))) : string :=
  match lines with
  | [] => EmptyString
  | fs :: rest => (csv_line fs ++ csv_text rest)%string
  end.

(** A line with at least one field, all of them plain, that is not the empty
    line. *)
Definition plain_line (fs : list (nat * string)) : Prop :=
  fs <> [] /\ fs <> [(O, EmptyString)] /\
  Forall (fun f => plain_field f = true) (map snd fs).

(** A line of three padded fields. *)
Definition padded_line : list (nat * string) :=
  [(0%nat, "Dune"); (2%nat, "Frank Herbert"); (1%nat, "")].

(** The header line of the bookstore's file. *)
Definition catalogue_header : list (nat * string) :=
  [(O, "title"); (O, "author"); (O, "ISBN")].

(** What a record holds for the column at position [i] of a row: the field
    there, or Python's [None] when the row is too short. *)
Definition column_value (row : list string) (i : nat) : Value :=
  match nth_error row i with
  | Some v => VStr v
  | None => VNone
  end.

(** *** Whole loads *)

(** A client none of whose calls raises. *)
Definition never_fails (env : Env) : Prop :=
  forall done c, fault env done c = None.

Definition is_write_transaction (ev : Call * option Exn) : bool :=
  match fst ev with
  | OpenTransaction _ WRITE => true
  | _ => false
  end.

(** The numbers of write transactions opened and of commits made among the
    calls [evs]. *)
Definition transactions (evs : list (Call * option Exn)) : Z :=
  len (filter is_write_transaction evs).

Definition commits (evs : list (Call * option Exn)) : Z :=
  len (filter is_commit evs).

(** The insert statements submitted among the calls [evs], in order. *)
Fixpoint inserted_statements (evs : list (Call * option Exn)) : list string :=
  match evs with
  | [] => []
  | (QueryInsert q, _) :: rest => q :: inserted_statements rest
  | _ :: rest => inserted_statements rest
  end.

(** The items of the file of a builder class, none when the file cannot be
    opened or read. *)
Definition pass_items (env : Env) (input : InputClass) : list Dict :=
  match files env (file input) with
  | Some text =>
      match DictReader text with
      | Some items => items
      | None => []
      end
  | None => []
  end.

(** The tally of the pass over the file of a builder class. *)
Definition pass_summary (env : Env) (input : InputClass) : list PyArg :=
  summary (len (pass_items env input))
          (len (skipped_items input (pass_items env input)))
          (file input) (__name__ input).

(** The number of non-empty statements over the files of the builder
    classes. *)
Fixpoint total_submitted (env : Env) (types : list InputClass) : Z :=
  match types with
  | [] => 0%Z
  | t :: rest =>
      (len (submitted_items t (pass_items env t)) + total_submitted env rest)%Z
  end.

(** The last line of a data load. *)
Definition completion_line : list PyArg :=
  [PStr (String LF "Data loading complete!")].

(** *** Paths of the main body *)

(** The calls of a computation, as an extension of the log, related to its
    result by [P]. *)
Definition emits {A} (P : Res A -> list (Call * option Exn) -> Prop)
    (m : M A) : Prop :=
  forall w, exists evs,
    log (snd (m w)) = log w ++ evs /\ P (fst (m w)) evs.

(** All the calls are of the kind [f]. *)
Definition only {A} (f : Call * option Exn -> bool)
  : Res A -> list (Call * option Exn) -> Prop :=
  fun _ evs => Forall (fun ev => f ev = true) evs.

(** No call at all. *)
Definition silent {A} : Res A -> list (Call * option Exn) -> Prop :=
  fun _ evs => evs = [].

Definition is_delete (ev : Call * option Exn) : bool :=
  match fst ev with DatabaseDelete _ => true | _ => false end.

Definition no_delete (ev : Call * option Exn) : bool := negb (is_delete ev).

Definition no_insert (ev : Call * option Exn) : bool := negb (is_insert ev).

(** The calls of the existence check. *)
Definition probe_call (c : Call) : bool :=
  match c with
  | CoreClient _ | OpenSession _ SCHEMA | OpenTransaction _ READ
  | QueryMatch _ => true
  | _ => false
  end.

(** The calls of [load_schema]. *)
Definition schema_call (c : Call) : bool :=
  match c with
  | CoreClient _ | OpenSession _ SCHEMA | OpenTransaction _ WRITE
  | QueryDefine _ | Commit => true
  | _ => false
  end.

(** The probe query, answered without error. *)
Definition probe_succeeded : Call * option Exn :=
  (QueryMatch typeql_read_query, None).

(** The shapes of the calls of a run with respect to deletion: the database
    is never deleted; or it is deleted once, by a call that comes after the
    successful probe query. *)
Definition delete_shape (env : Env) (evs : list (Call * option Exn)) : Prop :=
  Forall (fun ev => no_delete ev = true) evs \/
  exists p o rest,
    evs = p ++ (DatabaseDelete (db env), o) :: rest /\
    Forall (fun ev => no_delete ev = true) p /\
    In probe_succeeded p /\
    Forall (fun ev => no_delete ev = true) rest.

(** The calls from the deletion on. *)
Definition delete_tail (env : Env) {A}
  : Res A -> list (Call * option Exn) -> Prop :=
  fun _ evs =>
    Forall (fun ev => no_delete ev = true) evs \/
    exists o rest,
      evs = (DatabaseDelete (db env), o) :: rest /\
      Forall (fun ev => no_delete ev = true) rest.

(** The state of a run after more output and more calls. *)
Definition extend (w : World) (outs : list (list PyArg))
    (evs : list (Call * option Exn)) : World :=
  {| stdin := stdin w; stdout := stdout w ++ outs; log := log w ++ evs |}.

(** What has been printed when the prompt has been answered. *)
Definition prompt_output (verbose : bool) (env : Env) : list (list PyArg) :=
  (if verbose then [[PStr "High verbosity option turned on."]] else []) ++
  [[PStr ("Detected DB " ++ db env ++ ". Connecting.")];
   [PStr "The DB contains the schema and loaded data already."];
   [PStr "To reload data we will delete the existing DB... Please confirm!"];
   [PStr "Type in Delete to proceed with deletion: "]].

(** The calls of a reset up to the opening of the schema session. *)
Definition reset_start_calls (env : Env) : list Call :=
  [DatabaseDelete (db env); DatabasesCreate (db env);
   CoreClient address; OpenSession (db env) SCHEMA].

(** The calls on an absent database up to its creation. *)
Definition absent_calls (env : Env) : list Call :=
  [CoreClient address; DatabasesContains (db env); DatabasesCreate (db env)].

(** The calls of the existence check before the probe query. *)
Definition before_probe_calls (env : Env) : list Call :=
  [CoreClient address; DatabasesContains (db env);
   CoreClient address; OpenSession (db env) SCHEMA;
   OpenTransaction (schema_session env) READ].

Definition verbosity_output (verbose : bool) : list (list PyArg) :=
  if verbose then [[PStr "High verbosity option turned on."]] else [].

(** A bookstore without its schema file. *)
Definition shop_without_schema (present : bool) : Env :=
  {| db := "bookstore";
     Input_types_list := [BookInput];
     files := fun path =>
                if String.eqb path "data/books.csv" then Some books_csv
                else None;
     fault := no_fault;
     contains := fun _ => present |}.

(** The reader between two fields of a record, nothing collected for the
    next one. *)
Definition at_field_start (r : Reader) : Prop :=
  (state r = START_RECORD \/ state r = START_FIELD) /\ field r = "".

(** *** The calls of a load, record by record *)

(** The calls of the iteration over one record when none of them raises:
    the opening of its transaction and, for a non-empty statement, the
    submission of the statement and the commit. *)
Definition item_calls (input : InputClass) (session : Session) (item : Dict)
  : list Call :=
  if String.eqb (load input item) "" then [OpenTransaction session WRITE]
  else [OpenTransaction session WRITE; QueryInsert (load input item); Commit].

(** The calls of the iterations over the records [items], in their order. *)
Definition items_calls (input : InputClass) (session : Session)
    (items : list Dict) : list Call :=
  flat_map (item_calls input session) items.




(** The calls of the existence check before its probe query. *)
Definition check_calls (env : Env) : list Call :=
  [CoreClient address; OpenSession (db env) SCHEMA;
   OpenTransaction (schema_session env) READ].

(** The server accepts the first insert statement it is sent and rejects
    every later one. *)
Definition later_insert_fails : list Event -> Call -> option Exn :=
  fun done c =>
    match c with
    | QueryInsert _ =>
        if existsb is_insert done then Some invalid_insert else None
    | _ => None
    end.

(** The first and the third row of [books_csv]. *)
Definition dune : Dict :=
  [(Some "title", VStr "Dune"); (Some "author", VStr "Herbert");
   (Some "ISBN", VStr "9780441172719")].

Definition ulysses : Dict :=
  [(Some "title", VStr "Ulysses"); (Some "author", VStr "Joyce");
   (Some "ISBN", VStr "9780199535675")].

Definition ulysses_insert : string :=
  "insert $b isa book, has ISBN 9780199535675;".

(** *** What a record holds *)

(** The record [item] is the row [row] read against the field names
    [header]: its field names are those of the header; under each of them it
    holds the field of the row in the column of that name (the last column
    of that name, should the header repeat it), or [None] when the row is
    too short; and the surplus fields of a longer row are kept under the key
    [None], which is absent otherwise. *)
Definition record_of (header : list string) (item : Dict)
    (row : list string) : Prop :=
  (forall k, In (Some k) (keys item) <-> In k header) /\
  (forall i k,
     nth_error header i = Some k -> ~ In k (skipn (S i) header) ->
     dict_get (Some k) item = Some (column_value row i)) /\
  dict_get None item
  = (if Nat.ltb (length header) (length row)
     then Some (VList (skipn (length header) row))
     else None).

(** The columns of a row against the field names: one pair per field name,
    in order. *)
Definition columns (fieldnames row : list string) : list (Key * Value) :=
  combine (map Some fieldnames) (map VStr row)
  ++ map (fun k => (Some k, VNone)) (skipn (length row) fieldnames).

(** A books file with the header line and blank lines only. *)
Definition header_and_blank_lines_csv : string :=
  "title;author;ISBN


".

(** *** Further statements that do not hold of the script *)


(** A pass over a file without data rows raises the unbound-local error
    whatever the options of the run. *)
Definition empty_file_raises_unbound_local (debug : bool) (env : Env)
    (input : InputClass) (session : Session) (w : World) : Prop :=
  forall text,
    files env (file input) = Some text ->
    DictReader text = Some [] ->
    fst (load_data_into_typedb debug env input session w)
    = Raise (UnboundLocalError "input_object").

End More.

(* ===================================================================== *)
(** ** Properties of the csv reader                                       *)
(* ===================================================================== *)

Module CsvFacts.
Import Csv Spec.

Lemma list_ascii_app (a b : string) :
  list_ascii_of_string (a ++ b) =
  (list_ascii_of_string a ++ list_ascii_of_string b)%list.
Proof.
  induction a as [|c a IH]; simpl; [reflexivity | now rewrite IH].
Qed.

Lemma has_lf_app (a b : string) :
  has_lf (a ++ b) = has_lf a || has_lf b.
Proof.
  unfold has_lf. now rewrite list_ascii_app, existsb_app.
Qed.

Lemma add_char_spec r c r' :
  parse_add_char r c = Some r' ->
  state r' = state r /\ fields r' = fields r /\
  field r' = (field r ++ String c "")%string.
Proof.
  unfold parse_add_char.
  destruct (Z.leb _ _); [discriminate|].
  intros H; inversion H; subst; simpl; auto.
Qed.

Ltac step_cases :=
  repeat match goal with
  | H : context [if ?b then _ else _] |- _ => destruct b eqn:?
  | H : option_map _ (parse_add_char ?r ?c) = Some _ |- _ =>
      let E := fresh "E" in
      destruct (parse_add_char r c) eqn:E; simpl in H; [|discriminate]
  | H : Some _ = Some _ |- _ => inversion H; subst; clear H
  | H : None = Some _ |- _ => discriminate
  | H : parse_add_char _ _ = Some _ |- _ => apply add_char_spec in H
  end.

(** After the end-of-line mark the automaton is between records or inside
    quotes; in the latter case the mark changed nothing. *)
Lemma eol_state r r' :
  parse_process_char r None = Some r' ->
  state r' = START_RECORD \/ (state r = IN_QUOTED_FIELD /\ r' = r).
Proof.
  unfold parse_process_char.
  destruct (state r) eqn:Es; intros H; inversion H; subst; simpl; auto.
Qed.

Lemma existsb_snoc {A} (f : A -> bool) l x :
  existsb f (l ++ [x]) = existsb f l || f x.
Proof. rewrite existsb_app; simpl. now rewrite orb_false_r. Qed.

(** A line feed once collected stays in the record. *)
Lemma step_keeps_nl r c r' :
  parse_process_char r c = Some r' -> has_nl r = true -> has_nl r' = true.
Proof.
  unfold parse_process_char, has_nl.
  intros H Hn.
  destruct (state r) eqn:Es; destruct c as [ch|]; step_cases;
    simpl in *; try assumption;
    repeat match goal with
    | H : _ /\ _ |- _ => destruct H
    end;
    try (rewrite existsb_snoc; simpl;
         apply orb_true_iff in Hn; destruct Hn as [Hn|Hn]; rewrite Hn;
         auto using orb_true_r);
    try (match goal with
         | Hf : field _ = _, Hs : fields _ = _ |- _ => rewrite Hf, Hs
         end;
         rewrite has_lf_app;
         apply orb_true_iff in Hn; destruct Hn as [Hn|Hn]; rewrite Hn;
         auto using orb_true_r).
Qed.

Lemma chars_keep_nl l : forall r r',
  process_chars r l = Some r' -> has_nl r = true -> has_nl r' = true.
Proof.
  induction l as [|c l IH]; simpl; intros r r' H Hn.
  - inversion H; subst; assumption.
  - destruct (parse_process_char r (Some c)) eqn:E; [|discriminate].
    eapply IH; eauto using step_keeps_nl.
Qed.

Lemma line_keeps_nl l r r' :
  process_line r l = Some r' -> has_nl r = true -> has_nl r' = true.
Proof.
  unfold process_line.
  destruct (process_chars r l) eqn:E; [|discriminate].
  intros H Hn. eapply step_keeps_nl; eauto using chars_keep_nl.
Qed.

Lemma step_buffer_ok r c r' :
  parse_process_char r c = Some r' -> buffer_ok r -> buffer_ok r'.
Proof.
  unfold parse_process_char, buffer_ok.
  intros H Hb.
  destruct (state r) eqn:Es; destruct c as [ch|]; step_cases;
    simpl in *; try rewrite Es; auto;
    repeat match goal with
    | H : _ /\ _ |- _ => destruct H
    end;
    repeat match goal with
    | Hs : state ?x = _ |- context [state ?x] => rewrite Hs; auto
    end.
Qed.

Lemma chars_buffer_ok l : forall r r',
  process_chars r l = Some r' -> buffer_ok r -> buffer_ok r'.
Proof.
  induction l as [|c l IH]; simpl; intros r r' H Hb.
  - inversion H; subst; assumption.
  - destruct (parse_process_char r (Some c)) eqn:E; [|discriminate].
    eapply IH; eauto using step_buffer_ok.
Qed.

Lemma line_buffer_ok l r r' :
  process_line r l = Some r' -> buffer_ok r -> buffer_ok r'.
Proof.
  unfold process_line.
  destruct (process_chars r l) eqn:E; [|discriminate].
  intros H Hb. eapply step_buffer_ok; eauto using chars_buffer_ok.
Qed.

Lemma process_chars_app a : forall b r,
  process_chars r (a ++ b) =
  match process_chars r a with
  | Some r1 => process_chars r1 b
  | None => None
  end.
Proof.
  induction a as [|c a IH]; simpl; intros b r; [reflexivity|].
  destruct (parse_process_char r (Some c)); [apply IH | reflexivity].
Qed.

(** A line feed read inside quotes goes into the field. *)
Lemma lf_in_quotes r r' :
  parse_process_char r (Some LF) = Some r' ->
  state r' = IN_QUOTED_FIELD -> has_lf (field r') = true.
Proof.
  unfold parse_process_char.
  change (is_crlf LF) with true. change (Ascii.eqb LF quotechar) with false.
  cbv iota.
  intros H Hs.
  destruct (state r) eqn:Es; step_cases; simpl in *;
    try discriminate; try congruence.
  destruct H as (_ & _ & Hf). rewrite Hf, has_lf_app.
  apply orb_true_r.
Qed.

Lemma ends_lf_split l :
  ends_lf l = true -> exists body, l = (body ++ String LF "")%string.
Proof.
  unfold ends_lf. intros H.
  destruct (rev (list_ascii_of_string l)) as [|c t] eqn:E; [discriminate|].
  apply Ascii.eqb_eq in H; subst c.
  exists (string_of_list_ascii (rev t)).
  rewrite <- (string_of_list_ascii_of_string l).
  rewrite <- (rev_involutive (list_ascii_of_string l)), E. simpl.
  rewrite <- (string_of_list_ascii_of_string
                (string_of_list_ascii (rev t) ++ String LF "")).
  f_equal. rewrite list_ascii_app, list_ascii_of_string_of_list_ascii.
  reflexivity.
Qed.

Lemma terminated_in_quotes l r r' :
  ends_lf l = true -> process_line r l = Some r' ->
  state r' = IN_QUOTED_FIELD -> has_nl r' = true.
Proof.
  intros He Hp Hs.
  destruct (ends_lf_split l He) as [body ->].
  unfold process_line in Hp. rewrite process_chars_app in Hp.
  destruct (process_chars r body) as [r1|]; [|discriminate].
  simpl in Hp.
  destruct (parse_process_char r1 (Some LF)) as [r2|] eqn:E2; [|discriminate].
  destruct (eol_state _ _ Hp) as [Hc|[Hq ->]]; [congruence|].
  unfold has_nl. now rewrite (lf_in_quotes _ _ E2 Hq).
Qed.

(** A record left open across a line break that it has swallowed yields a
    row with that line break in one of its fields. *)
Lemma open_record_embeds_newline lines : forall r rows,
  state r = IN_QUOTED_FIELD -> has_nl r = true -> buffer_ok r ->
  reader_from r lines = Some rows -> no_embedded_newline rows = false.
Proof.
  induction lines as [|l rest IH]; simpl; intros r rows Hs Hn Hb H.
  - rewrite Hs in H. rewrite orb_true_r in H. inversion H; subst.
    unfold no_embedded_newline. simpl.
    rewrite andb_true_r, forallb_app. simpl.
    unfold has_nl in Hn. apply orb_true_iff in Hn.
    destruct Hn as [Hn|Hn].
    + rewrite Hn. simpl. now rewrite andb_false_r.
    + apply andb_false_iff. left.
      apply not_true_iff_false. intros Hall.
      apply existsb_exists in Hn. destruct Hn as (f & Hin & Hf).
      rewrite forallb_forall in Hall. specialize (Hall f Hin).
      rewrite Hf in Hall. discriminate.
  - destruct (process_line r l) as [r'|] eqn:E; [|discriminate].
    pose proof (line_keeps_nl _ _ _ E Hn) as Hn'.
    pose proof (line_buffer_ok _ _ _ E Hb) as Hb'.
    destruct (state_eqb (state r') START_RECORD) eqn:Est.
    + destruct (reader_from parse_reset rest); [|discriminate].
      inversion H; subst.
      unfold no_embedded_newline. simpl.
      apply andb_false_iff. left.
      unfold buffer_ok in Hb'. unfold has_nl in Hn'.
      destruct (state r'); try discriminate.
      rewrite Hb' in Hn'. simpl in Hn'.
      apply not_true_iff_false. intros Hall.
      apply existsb_exists in Hn'. destruct Hn' as (f & Hin & Hf).
      rewrite forallb_forall in Hall. specialize (Hall f Hin).
      rewrite Hf in Hall. discriminate.
    + assert (Hq : state r' = IN_QUOTED_FIELD).
      { unfold process_line in E.
        destruct (process_chars r l) as [r1|]; [|discriminate].
        destruct (eol_state _ _ E) as [Hc|[Hq Heq]].
        - rewrite Hc in Est. discriminate.
        - now rewrite Heq. }
      eapply IH; eauto.
Qed.

Lemma snoc_not_nil {A} (l : list A) x : l ++ [x] <> [].
Proof. destruct l; discriminate. Qed.

Lemma step_has_content r ch r' :
  parse_process_char r (Some ch) = Some r' -> has_content r -> has_content r'.
Proof.
  unfold parse_process_char, has_content.
  intros H Hc.
  destruct (state r) eqn:Es; step_cases; simpl in *;
    repeat match goal with
    | H : _ /\ _ |- _ => destruct H
    end;
    try (repeat right; apply snoc_not_nil);
    try (right; right; left; congruence);
    try (right; left; congruence);
    try (left; congruence);
    try tauto;
    try (repeat right;
         repeat destruct Hc as [Hc|Hc]; try discriminate; congruence).
Qed.

Lemma step_only_crlf r ch r' :
  parse_process_char r (Some ch) = Some r' -> only_crlf_seen r ->
  if is_crlf ch then only_crlf_seen r' else has_content r'.
Proof.
  unfold parse_process_char, only_crlf_seen, has_content.
  intros H [[Hs|Hs] Hf]; rewrite Hs in H;
    destruct (is_crlf ch) eqn:Ec; step_cases; simpl in *;
    repeat match goal with
    | H : _ /\ _ |- _ => destruct H
    end;
    auto;
    try (repeat right; apply snoc_not_nil);
    try tauto;
    try (right; left; congruence).
Qed.

Lemma chars_has_content l : forall r r',
  process_chars r l = Some r' -> has_content r -> has_content r'.
Proof.
  induction l as [|c l IH]; simpl; intros r r' H Hc.
  - inversion H; subst; assumption.
  - destruct (parse_process_char r (Some c)) eqn:E; [|discriminate].
    eapply IH; eauto using step_has_content.
Qed.

Lemma chars_only_crlf l : forall r r',
  process_chars r l = Some r' -> only_crlf_seen r ->
  if blank_line l then only_crlf_seen r' else has_content r'.
Proof.
  unfold blank_line.
  induction l as [|c l IH]; simpl; intros r r' H Hc.
  - inversion H; subst; assumption.
  - destruct (parse_process_char r (Some c)) as [r1|] eqn:E; [|discriminate].
    pose proof (step_only_crlf _ _ _ E Hc) as H1.
    destruct (is_crlf c); simpl.
    + eapply IH; eauto.
    + eapply chars_has_content; eauto.
Qed.

(** What one line read from the reset reader leaves behind: a blank line
    ends the (empty) record; any other line leaves a record with content,
    complete or open inside quotes. *)
Lemma line_from_reset l r' :
  process_line parse_reset l = Some r' ->
  if blank_line l
  then state r' = START_RECORD /\ fields r' = []
  else (state r' = START_RECORD /\ fields r' <> []) \/
       state r' = IN_QUOTED_FIELD.
Proof.
  unfold process_line.
  destruct (process_chars parse_reset l) as [r1|] eqn:E; [|discriminate].
  intros H.
  assert (H0 : only_crlf_seen parse_reset) by (split; auto).
  pose proof (chars_only_crlf _ _ _ E H0) as H1.
  destruct (blank_line l).
  - destruct H1 as [[Hs|Hs] Hf]; unfold parse_process_char in H;
      rewrite Hs in H; inversion H; subst; simpl; auto.
  - destruct (eol_state _ _ H) as [Hs|[Hq ->]]; [|now right].
    left. split; [assumption|].
    unfold has_content in H1. unfold parse_process_char in H.
    destruct (state r1) eqn:Es; inversion H; subst; simpl in *;
      try apply snoc_not_nil;
      repeat destruct H1 as [H1|H1]; congruence.
Qed.

Lemma readlines_from_terminated s : forall cur,
  terminated_lines (readlines_from cur s).
Proof.
  induction s as [|c s IH]; simpl; intros cur.
  - destruct cur; simpl; exact I.
  - destruct (Ascii.eqb c LF) eqn:Ec; [|apply IH].
    simpl. destruct (readlines_from "" s) eqn:Er; [exact I|].
    split.
    + unfold ends_lf. rewrite list_ascii_app, rev_app_distr. simpl.
      assumption.
    + rewrite <- Er. apply IH.
Qed.

(** Without line breaks inside fields the reader yields one row per line,
    the empty row exactly on blank lines. *)
Lemma rows_follow_lines lines : forall rows,
  terminated_lines lines ->
  reader_from parse_reset lines = Some rows ->
  no_embedded_newline rows = true ->
  Forall2 (fun l row => is_blank_row row = blank_line l) lines rows.
Proof.
  induction lines as [|l rest IH]; intros rows Ht H Hn.
  - simpl in H. inversion H; subst. constructor.
  - simpl in H.
    destruct (process_line parse_reset l) as [r'|] eqn:E; [|discriminate].
    pose proof (line_from_reset _ _ E) as Hl.
    assert (Hb' : buffer_ok r').
    { eapply line_buffer_ok; eauto. reflexivity. }
    destruct (state_eqb (state r') START_RECORD) eqn:Est.
    + destruct (reader_from parse_reset rest) as [rows'|] eqn:Er;
        [|discriminate].
      inversion H; subst.
      unfold no_embedded_newline in Hn. simpl in Hn.
      apply andb_true_iff in Hn. destruct Hn as [_ Hn].
      constructor.
      * destruct (blank_line l).
        -- destruct Hl as [_ ->]. reflexivity.
        -- destruct Hl as [[_ Hf]|Hq].
           ++ destruct (fields r'); [contradiction | reflexivity].
           ++ rewrite Hq in Est. discriminate.
      * apply IH; auto.
        simpl in Ht. destruct rest; [exact I | apply Ht].
    + assert (Hq : state r' = IN_QUOTED_FIELD).
      { destruct (blank_line l).
        - destruct Hl as [Hs _]. rewrite Hs in Est. discriminate.
        - destruct Hl as [[Hs _]|Hq]; [|assumption].
          rewrite Hs in Est. discriminate. }
      assert (Hnb : blank_line l = false).
      { destruct (blank_line l); [|reflexivity].
        destruct Hl as [Hs _]. congruence. }
      destruct rest as [|l2 rest].
      * simpl in H. rewrite Hq in H. rewrite orb_true_r in H.
        inversion H; subst. constructor; [|constructor].
        rewrite Hnb. simpl.
        destruct (fields r' ++ [field r']) eqn:Ef; [|reflexivity].
        exfalso. eapply snoc_not_nil; eauto.
      * exfalso.
        simpl in Ht. destruct Ht as [He _].
        pose proof (terminated_in_quotes _ _ _ He E Hq) as Hnl.
        pose proof (open_record_embeds_newline _ _ _ Hq Hnl Hb' H).
        congruence.
Qed.

Lemma DictReader_rows_count lines rows :
  Forall2 (fun l row => is_blank_row row = blank_line l) lines rows ->
  length (DictReader_rows rows) =
  length (filter (fun l => negb (blank_line l)) (tl lines)).
Proof.
  intros H. destruct H as [|l row lines rows _ H]; [reflexivity|].
  simpl. rewrite length_map.
  induction H as [|l' r' ls rs Hb _ IH]; simpl; [reflexivity|].
  rewrite Hb. destruct (blank_line l'); simpl; congruence.
Qed.

Lemma filter_all_length {A} (f : A -> bool) l :
  forallb f l = true -> length (filter f l) = length l.
Proof.
  induction l as [|x l IH]; simpl; [reflexivity|].
  intros H. apply andb_true_iff in H. destruct H as [-> H].
  simpl. now rewrite IH.
Qed.

(** *** Keys of the rows *)

Lemma keys_dict_set k v d k' :
  In k' (keys (dict_set k v d)) -> k' = k \/ In k' (keys d).
Proof.
  unfold keys. induction d as [|[k0 v0] d IH]; simpl.
  - intros [H|[]]; auto.
  - destruct (key_eqb k k0); simpl; intros [H|H]; auto.
    destruct (IH H); auto.
Qed.

Lemma keys_fold_set (kvs : list (Key * Value)) : forall d k,
  In k (keys (fold_left (fun d kv => dict_set (fst kv) (snd kv) d) kvs d)) ->
  In k (map fst kvs) \/ In k (keys d).
Proof.
  induction kvs as [|[k0 v0] kvs IH]; simpl; intros d k H; [auto|].
  destruct (IH _ _ H) as [H1|H1]; [auto|].
  destruct (keys_dict_set _ _ _ _ H1); auto.
Qed.

Lemma keys_fold_none (names : list string) : forall d k,
  In k (keys (fold_left (fun d key => dict_set (Some key) VNone d) names d)) ->
  In k (map Some names) \/ In k (keys d).
Proof.
  induction names as [|n names IH]; simpl; intros d k H; [auto|].
  destruct (IH _ _ H) as [H1|H1]; [auto|].
  destruct (keys_dict_set _ _ _ _ H1); auto.
Qed.

Lemma keys_pairs fieldnames row k :
  In (Some k)
     (keys (dict_of_pairs (combine (map Some fieldnames) (map VStr row)))) ->
  In k fieldnames.
Proof.
  unfold dict_of_pairs. intros H.
  destruct (keys_fold_set _ _ _ H) as [H1|[]].
  apply in_map_iff in H1. destruct H1 as ([k1 v1] & Hk & Hin).
  simpl in Hk. subst k1. apply in_combine_l in Hin.
  apply in_map_iff in Hin. destruct Hin as (x & Hx & Hin).
  inversion Hx; subst. assumption.
Qed.

(** The field names of a row are among those of the header. *)
Lemma make_row_keys fieldnames row k :
  In (Some k) (keys (make_row fieldnames row)) -> In k fieldnames.
Proof.
  unfold make_row.
  destruct (Nat.ltb (length fieldnames) (length row)).
  - intros H. destruct (keys_dict_set _ _ _ _ H) as [H1|H1];
      [discriminate|eauto using keys_pairs].
  - destruct (Nat.ltb (length row) (length fieldnames));
      [|eauto using keys_pairs].
    intros H. destruct (keys_fold_none _ _ _ H) as [H1|H1];
      [|eauto using keys_pairs].
    apply in_map_iff in H1. destruct H1 as (x & Hx & Hin).
    inversion Hx; subst.
    rewrite <- (firstn_skipn (length row) fieldnames).
    apply in_or_app. now right.
Qed.

Lemma DictReader_rows_keys rows :
  Forall (fun item => forall k, In (Some k) (keys item) -> In k (hd [] rows))
         (DictReader_rows rows).
Proof.
  destruct rows as [|fieldnames data]; simpl; [constructor|].
  apply Forall_forall. intros item Hin k Hk.
  apply in_map_iff in Hin. destruct Hin as (row & <- & _).
  eauto using make_row_keys.
Qed.

(** The rows of [DictReader] over a text without line breaks in fields. *)
Lemma DictReader_count text rows :
  reader (readlines text) = Some rows ->
  no_embedded_newline rows = true ->
  DictReader text = Some (DictReader_rows rows) /\
  length (DictReader_rows rows) =
  length (filter (fun l => negb (blank_line l)) (tl (readlines text))).
Proof.
  intros Hr Hn. unfold DictReader. rewrite Hr. split; [reflexivity|].
  apply DictReader_rows_count.
  apply rows_follow_lines; auto.
  apply readlines_from_terminated.
Qed.

End CsvFacts.

(* ===================================================================== *)
(** ** Properties of the loader                                           *)
(* ===================================================================== *)

Module LoaderFacts.
Import Py Py.Notations Loader Spec.
Local Open Scope py_scope.
Local Open Scope Z_scope.

Lemma disciplined_ret {A} (a : A) : disciplined (ret a).
Proof.
  intros w. exists []. simpl. rewrite app_nil_r.
  repeat split; auto.
Qed.

Lemma disciplined_raise {A} e : disciplined (@raise A e).
Proof.
  intros w. exists []. simpl. rewrite app_nil_r.
  repeat split; auto.
Qed.

Lemma disciplined_print args : disciplined (print args).
Proof.
  intros w. exists []. simpl. rewrite app_nil_r.
  repeat split; auto.
Qed.

Lemma disciplined_call debug_env c :
  loader_call c = true -> disciplined (call debug_env c).
Proof.
  intros Hc w. unfold call.
  destruct (fault debug_env (log w) c) as [e|] eqn:Ef; simpl.
  - exists [(c, Some e)]. repeat split; auto.
    right. exists e, [], c. repeat split; auto.
  - exists [(c, None)]. repeat split; auto.
    left. repeat constructor.
Qed.

Lemma disciplined_bind {A B} (m : M A) (k : A -> M B) :
  disciplined m -> (forall a, disciplined (k a)) -> disciplined (bind m k).
Proof.
  intros Hm Hk w. unfold bind.
  destruct (Hm w) as (evs1 & Hl1 & Hi1 & Hc1 & Hs1).
  destruct (m w) as [[a|e] w1] eqn:Em; simpl in *.
  - destruct (Hk a w1) as (evs2 & Hl2 & Hi2 & Hc2 & Hs2).
    exists (evs1 ++ evs2).
    rewrite Hl2, Hl1, Hi2, Hi1, app_assoc.
    repeat split; auto.
    + apply Forall_app; auto.
    + assert (Hok : Forall succeeded evs1).
      { destruct Hs1 as [H|(e & ? & ? & H & _)]; [assumption|discriminate]. }
      destruct Hs2 as [H|(e & evs0 & c & Hr & He & H0)].
      * left. apply Forall_app; auto.
      * right. exists e, (evs1 ++ evs0), c.
        rewrite He, app_assoc. repeat split; auto.
        apply Forall_app; auto.
  - exists evs1. repeat split; auto.
    destruct Hs1 as [H|(e' & evs0 & c & Hr & He & H0)]; [left; auto|].
    right. exists e', evs0, c. repeat split; auto. congruence.
Qed.

Lemma disciplined_when b (m : M unit) :
  disciplined m -> disciplined (when b m).
Proof.
  destruct b; simpl; auto using disciplined_ret.
Qed.

Create HintDb loader.
#[local] Hint Resolve disciplined_ret disciplined_raise disciplined_print
  disciplined_call disciplined_bind disciplined_when : loader.

Lemma disciplined_parse debug env input :
  disciplined (parse_data_to_dictionaries debug env input).
Proof.
  unfold parse_data_to_dictionaries, class_getitem, open.
  repeat (apply disciplined_bind; [|intros ?]); auto with loader.
  - destruct (files env (file input)); auto with loader.
  - destruct (Csv.DictReader _); auto with loader.
Qed.

Lemma disciplined_loop_body debug env input session item l :
  disciplined (loop_body debug env input session item l).
Proof.
  unfold loop_body.
  apply disciplined_bind; [auto with loader|intros _].
  destruct (negb _);
    repeat (apply disciplined_bind; [|intros ?]); auto with loader.
Qed.

Lemma disciplined_for_items debug env input session items : forall l,
  disciplined (for_items debug env input session items l).
Proof.
  induction items as [|item rest IH]; simpl; intros l; auto with loader.
  apply disciplined_bind; auto using disciplined_loop_body.
Qed.

Lemma disciplined_pass debug env input session :
  disciplined (load_data_into_typedb debug env input session).
Proof.
  unfold load_data_into_typedb.
  apply disciplined_bind; [apply disciplined_parse|intros items].
  apply disciplined_bind; [apply disciplined_for_items|intros l].
  destruct (input_object l); auto with loader.
Qed.

Lemma disciplined_for_input_types debug env session types :
  disciplined (for_input_types debug env session types).
Proof.
  induction types as [|t rest IH]; simpl; auto with loader.
  apply disciplined_bind; [auto with loader|intros _].
  apply disciplined_bind; [apply disciplined_pass|intros _].
  exact IH.
Qed.

Lemma disciplined_load_data debug env :
  disciplined (load_data debug env).
Proof.
  unfold load_data, client_session.
  apply disciplined_bind; [auto with loader|intros _].
  apply disciplined_bind; [|intros session].
  - apply disciplined_bind; [|intros _]; auto with loader.
  - apply disciplined_bind; [|intros _]; auto with loader.
    apply disciplined_for_input_types.
Qed.

(** *** One iteration of the loop *)

Ltac run_call :=
  match goal with
  | |- context [fault ?env ?l ?c] =>
      let E := fresh "Ef" in destruct (fault env l c) eqn:E; simpl
  end.

Lemma loop_body_cases debug env input session item l w :
  let r := loop_body debug env input session item l w in
  let q := load input item in
  let tx := OpenTransaction session WRITE in
  let o := Some {| object_class := input; object_item := item |} in
  (exists e, fst r = Raise e /\ log (snd r) = log w ++ [(tx, Some e)]) \/
  (q = "" /\
   fst r = Ret {| skip_count := skip_count l + 1; input_object := o |} /\
   log (snd r) = log w ++ [(tx, None)]) \/
  (q <> "" /\ exists e, fst r = Raise e /\
   log (snd r) = log w ++ [(tx, None); (QueryInsert q, Some e)]) \/
  (q <> "" /\ exists e, fst r = Raise e /\
   log (snd r) =
   log w ++ [(tx, None); (QueryInsert q, None); (Commit, Some e)]) \/
  (q <> "" /\
   fst r = Ret {| skip_count := skip_count l; input_object := o |} /\
   log (snd r) =
   log w ++ [(tx, None); (QueryInsert q, None); (Commit, None)]).
Proof.
  cbv zeta. unfold loop_body, bind, call, when, ret, print, record_call.
  run_call; [left; eauto|].
  destruct (String.eqb_spec (load input item) "") as [Hq|Hq]; simpl.
  - right; left. destruct debug; simpl; auto.
  - right; right.
    destruct debug; simpl; repeat run_call; rewrite <- ?app_assoc; simpl;
      eauto 10.
Qed.

Lemma loop_body_quiet env input session item l w :
  stdout (snd (loop_body false env input session item l w)) = stdout w.
Proof.
  unfold loop_body, bind, call, when, ret, print, record_call.
  run_call; [reflexivity|].
  destruct (String.eqb (load input item) ""); simpl; [reflexivity|].
  repeat run_call; reflexivity.
Qed.

Lemma for_items_quiet env input session items : forall l w,
  stdout (snd (for_items false env input session items l w)) = stdout w.
Proof.
  induction items as [|item rest IH]; simpl; intros l w; [reflexivity|].
  unfold bind.
  pose proof (loop_body_quiet env input session item l w) as Hq.
  destruct (loop_body false env input session item l w) as [[l1|e] w1];
    simpl in *; [|assumption].
  rewrite IH. assumption.
Qed.

(** A pass that gets through its items has counted the empty statements and
    submitted the others, one call each. *)
Lemma for_items_tally debug env input session items : forall l w l' w',
  for_items debug env input session items l w = (Ret l', w') ->
  skip_count l' = skip_count l + len (skipped_items input items) /\
  (items = [] -> l' = l) /\
  (items <> [] ->
   exists item, input_object l' =
                Some {| object_class := input; object_item := item |}) /\
  exists evs, log w' = log w ++ evs /\
              submissions evs = len (submitted_items input items).
Proof.
  induction items as [|item rest IH]; simpl; intros l w l' w' H.
  - inversion H; subst. unfold len; simpl.
    repeat split; try lia; try congruence.
    exists []. now rewrite app_nil_r.
  - unfold bind in H.
    pose proof (loop_body_cases debug env input session item l w) as Hc.
    cbv zeta in Hc.
    destruct (loop_body debug env input session item l w) as [[l1|e] w1];
      simpl in Hc; [|discriminate].
    destruct (IH _ _ _ _ H) as (Hs & Hnil & Hne & evs & Hl & Hsub).
    assert (Hobj : exists it, input_object l' =
              Some {| object_class := input; object_item := it |}).
    { destruct rest as [|i2 rest].
      - rewrite (Hnil eq_refl).
        destruct Hc as [(e & He & _)|[(_ & Hr & _)|[(_ & e & He & _)|
                       [(_ & e & He & _)|(_ & Hr & _)]]]];
          try discriminate; inversion Hr; subst; simpl; eauto.
      - apply Hne. discriminate. }
    unfold skipped_items, submitted_items, submissions in *. simpl.
    destruct Hc as [(e & He & _)|[(Hq & Hr & Hl1)|[(_ & e & He & _)|
                   [(_ & e & He & _)|(Hq & Hr & Hl1)]]]];
      try discriminate; inversion Hr; subst l1; simpl in *.
    + rewrite Hq. simpl. repeat split; try discriminate; auto.
      * rewrite Hs. unfold len. simpl length. lia.
      * exists ((OpenTransaction session WRITE, None) :: evs).
        rewrite Hl, Hl1, <- app_assoc. simpl. split; [reflexivity|].
        exact Hsub.
    + apply String.eqb_neq in Hq. rewrite Hq. simpl.
      repeat split; try discriminate; auto.
      exists ([(OpenTransaction session WRITE, None);
               (QueryInsert (load input item), None); (Commit, None)] ++ evs).
      rewrite Hl, Hl1, <- app_assoc. split; [reflexivity|].
      simpl. unfold len in *. simpl length. lia.
Qed.

End LoaderFacts.

(* ===================================================================== *)
(** ** The load pass                                                      *)
(* ===================================================================== *)

Module PassFacts.
Import Py Py.Notations Loader Spec LoaderFacts.
Local Open Scope py_scope.
Local Open Scope Z_scope.

Lemma parse_quiet env input w :
  parse_data_to_dictionaries false env input w =
  match files env (file input) with
  | None => (Raise (FileNotFoundError (file input)), w)
  | Some text =>
      match Csv.DictReader text with
      | Some rows => (Ret rows, w)
      | None => (Raise CsvError, w)
      end
  end.
Proof.
  unfold parse_data_to_dictionaries, bind, when, open, ret, raise.
  destruct (files env (file input)) as [text|]; simpl; [|reflexivity].
  destruct (Csv.DictReader text); reflexivity.
Qed.

Lemma parse_verbose env input w :
  parse_data_to_dictionaries true env input w = (Raise subscript_error, w).
Proof. reflexivity. Qed.

Lemma pass_verbose env input session w :
  load_data_into_typedb true env input session w = (Raise subscript_error, w).
Proof. reflexivity. Qed.

Lemma partition_len input items :
  len (submitted_items input items) + len (skipped_items input items)
  = len items.
Proof.
  unfold len, submitted_items, skipped_items.
  induction items as [|item rest IH]; simpl; [reflexivity|].
  destruct (String.eqb (load input item) ""); simpl length; lia.
Qed.

(** What a completed pass has done. *)
Lemma pass_completed debug env input session w w' :
  load_data_into_typedb debug env input session w = (Ret tt, w') ->
  debug = false /\
  exists text items evs,
    files env (file input) = Some text /\
    Csv.DictReader text = Some items /\
    items <> [] /\
    log w' = log w ++ evs /\
    submissions evs = len (submitted_items input items) /\
    stdout w' =
    stdout w ++ [summary (len items) (len (skipped_items input items))
                         (file input) (__name__ input)].
Proof.
  destruct debug; [rewrite pass_verbose; intros H; discriminate H|].
  intros H. split; [reflexivity|].
  unfold load_data_into_typedb, bind in H.
  rewrite parse_quiet in H.
  destruct (files env (file input)) as [text|] eqn:Hf; [|discriminate].
  destruct (Csv.DictReader text) as [items|] eqn:Hd; [|discriminate].
  pose proof (for_items_quiet env input session items
                {| skip_count := 0; input_object := None |} w) as Hq.
  destruct (for_items false env input session items _ w) as [[l|e] w1] eqn:Ef;
    [|discriminate].
  destruct (for_items_tally _ _ _ _ _ _ _ _ _ Ef)
    as (Hs & Hnil & Hne & evs & Hl & Hsub).
  simpl in Hs, Hq.
  destruct items as [|i0 items0].
  - rewrite (Hnil eq_refl) in H. simpl in H. discriminate.
  - destruct (Hne ltac:(discriminate)) as (it & Ho).
    rewrite Ho in H. simpl in H. unfold print in H.
    inversion H; subst w'; simpl.
    exists text, (i0 :: items0), evs.
    rewrite Hq, Hs.
    repeat split; auto; try discriminate.
Qed.

Lemma pass_raise_quiet env input session w e :
  fst (load_data_into_typedb false env input session w) = Raise e ->
  stdout (snd (load_data_into_typedb false env input session w)) = stdout w.
Proof.
  unfold load_data_into_typedb, bind.
  rewrite parse_quiet.
  destruct (files env (file input)) as [text|]; [|reflexivity].
  destruct (Csv.DictReader text) as [items|]; [|reflexivity].
  pose proof (for_items_quiet env input session items
                {| skip_count := 0; input_object := None |} w) as Hq.
  destruct (for_items false env input session items _ w) as [[l|e'] w1];
    simpl in *; [|auto].
  destruct (input_object l); simpl; [discriminate|auto].
Qed.

(** A failed call among calls of which all but the last succeeded is the
    last one. *)
Lemma failed_is_last (evs0 : list Event) : forall pre c e post x,
  pre ++ (c, Some e) :: post = evs0 ++ [x] ->
  Forall succeeded evs0 ->
  post = [] /\ pre = evs0 /\ x = (c, Some e).
Proof.
  induction evs0 as [|a t IH]; intros pre c e post x H Hok.
  - destruct pre as [|p pre]; simpl in H.
    + inversion H; subst. auto.
    + inversion H. destruct pre; discriminate.
  - inversion Hok as [|? ? Ha Ht]; subst.
    destruct pre as [|p pre]; simpl in H.
    + inversion H; subst. unfold succeeded in Ha. discriminate.
    + inversion H; subst.
      destruct (IH _ _ _ _ _ H2 Ht) as (-> & -> & ->). auto.
Qed.

Lemma succeeded_no_failure (evs : list Event) pre c e post :
  Forall succeeded evs -> evs = pre ++ (c, Some e) :: post -> False.
Proof.
  intros H ->. apply Forall_app in H. destruct H as [_ H].
  inversion H as [|? ? Hx _]; subst. discriminate Hx.
Qed.

End PassFacts.

(* ===================================================================== *)
(** ** The bootstrap sequence                                             *)
(* ===================================================================== *)

Module BootFacts.
Import Py Py.Notations Loader Spec LoaderFacts.
Local Open Scope py_scope.

Lemma boots_ret {A} (a : A) : boots (ret a).
Proof. intros w. exists []. simpl. now rewrite app_nil_r. Qed.

Lemma boots_raise {A} e : boots (@raise A e).
Proof. intros w. exists []. simpl. now rewrite app_nil_r. Qed.

Lemma boots_print args : boots (print args).
Proof. intros w. exists []. simpl. now rewrite app_nil_r. Qed.

Lemma boots_input prompt : boots (builtin_input prompt).
Proof.
  intros w. exists []. unfold builtin_input.
  destruct (stdin w); simpl; now rewrite app_nil_r.
Qed.

Lemma boots_call env c : plain_call c = true -> boots (call env c).
Proof.
  intros Hc w. unfold call.
  destruct (fault env (log w) c) as [e|]; simpl;
    eexists; (split; [reflexivity|]);
    repeat constructor; destruct c; simpl in *; auto; discriminate.
Qed.

Lemma boots_bind {A B} (m : M A) (k : A -> M B) :
  boots m -> (forall a, boots (k a)) -> boots (bind m k).
Proof.
  intros Hm Hk w. unfold bind.
  destruct (Hm w) as (evs1 & Hl1 & Hp1).
  destruct (m w) as [[a|e] w1]; simpl in *.
  - destruct (Hk a w1) as (evs2 & Hl2 & Hp2).
    exists (evs1 ++ evs2). rewrite Hl2, Hl1, app_assoc.
    split; [reflexivity|]. apply Forall_app; auto.
  - exists evs1. auto.
Qed.

Lemma boots_try_except {A} (body : M A) handler :
  boots body -> (forall e, boots (handler e)) ->
  boots (try_except body handler).
Proof.
  intros Hm Hk w. unfold try_except.
  destruct (Hm w) as (evs1 & Hl1 & Hp1).
  destruct (body w) as [[a|e] w1]; simpl in *.
  - exists evs1. auto.
  - destruct (Hk e w1) as (evs2 & Hl2 & Hp2).
    exists (evs1 ++ evs2). rewrite Hl2, Hl1, app_assoc.
    split; [reflexivity|]. apply Forall_app; auto.
Qed.

Create HintDb boot.
#[local] Hint Resolve boots_ret boots_raise boots_print boots_input
  boots_call boots_bind boots_try_except : boot.

Lemma boots_contains env name : boots (databases_contains env name).
Proof.
  unfold databases_contains.
  apply boots_bind; [auto with boot|intros _].
  intros w. exists []. simpl. now rewrite app_nil_r.
Qed.

Lemma boots_session env name t : boots (client_session env name t).
Proof.
  unfold client_session. apply boots_bind; [|intros _]; auto with boot.
Qed.

Lemma boots_has_existing_data env : boots (has_existing_data env).
Proof.
  unfold has_existing_data.
  apply boots_bind; [auto with boot|intros _].
  apply boots_bind; [apply boots_session|intros session].
  apply boots_bind; [auto with boot|intros _].
  apply boots_try_except; [|auto with boot].
  apply boots_bind; [auto with boot|intros _].
  apply boots_bind; [|intros _]; auto with boot.
Qed.

Lemma boots_verbosity verbose : boots (verbosity verbose).
Proof.
  unfold verbosity. destruct verbose; auto with boot.
Qed.

Lemma staged_boots {A} (m : M A) : boots m -> staged m.
Proof.
  intros H w. destruct (H w) as (evs & Hl & Hp).
  exists evs. split; [assumption|]. left. assumption.
Qed.

Lemma staged_bind {A B} (m : M A) (k : A -> M B) :
  boots m -> (forall a, staged (k a)) -> staged (bind m k).
Proof.
  intros Hm Hk w. unfold bind.
  destruct (Hm w) as (evs1 & Hl1 & Hp1).
  destruct (m w) as [[a|e] w1]; simpl in *.
  - destruct (Hk a w1) as (evs2 & Hl2 & Hs2).
    exists (evs1 ++ evs2). rewrite Hl2, Hl1, app_assoc.
    split; [reflexivity|].
    destruct Hs2 as [Hp2|(p & d & o & rest & He & Hp & Ho)].
    + left. apply Forall_app; auto.
    + right. exists (evs1 ++ p), d, o, rest.
      rewrite He, app_assoc. repeat split; auto.
      apply Forall_app; auto.
  - exists evs1. split; [assumption|]. left. assumption.
Qed.

(** [load_schema] returns True after the definition was submitted and
    committed, its last two calls; otherwise no definition was committed. *)
Lemma load_schema_cases env w :
  exists evs,
    log (snd (load_schema env w)) = log w ++ evs /\
    ((fst (load_schema env w) = Ret true /\
      exists p d,
        evs = p ++ [(QueryDefine d, None); (Commit, None)] /\
        Forall (fun ev => plain ev = true) p) \/
     (fst (load_schema env w) <> Ret true /\
      schema_shape (stdout (snd (load_schema env w))) evs)).
Proof.
  unfold load_schema, client_session, open, try_except_Exception, bind,
    call, ret, raise, print, record_call.
  run_call; [eexists; split; [reflexivity|]; right; split;
             [discriminate|left; repeat constructor]|].
  run_call; [rewrite <- ?app_assoc; eexists; split; [reflexivity|]; right;
             split; [discriminate|left; repeat constructor]|].
  destruct (files env "../schema.tql") as [q|]; simpl;
    [|rewrite <- ?app_assoc; eexists; split; [reflexivity|]; right;
      split; [discriminate|left; repeat constructor]].
  run_call; [rewrite <- ?app_assoc; eexists; split; [reflexivity|]; right;
             split; [discriminate|left; repeat constructor]|].
  run_call.
  - (* the definition raises *)
    destruct (is_Exception e) eqn:Hx; simpl; rewrite <- ?app_assoc;
      (eexists; split; [reflexivity|]); right;
      (split; [discriminate|]); right;
      exists [(CoreClient address, None); (OpenSession (db env) SCHEMA, None);
              (OpenTransaction {| session_db := db env;
                                  session_type := SCHEMA |} WRITE, None)],
             q, (Some e), [];
      (split; [reflexivity|]); (split; [repeat constructor|]);
      (split; [reflexivity|]); intros Hy; try congruence.
    simpl. apply in_or_app. right. left. reflexivity.
  - run_call.
    + (* the commit raises *)
      destruct (is_Exception e) eqn:Hx; simpl; rewrite <- ?app_assoc;
        (eexists; split; [reflexivity|]); right;
        (split; [discriminate|]); right;
        exists [(CoreClient address, None);
                (OpenSession (db env) SCHEMA, None);
                (OpenTransaction {| session_db := db env;
                                    session_type := SCHEMA |} WRITE, None)],
               q, None, [(Commit, Some e)];
        (split; [reflexivity|]); (split; [repeat constructor|]);
        left; exists e; (split; [reflexivity|]);
        intros Hy; try congruence.
      simpl. apply in_or_app. right. left. reflexivity.
    + rewrite <- ?app_assoc. eexists. split; [reflexivity|]. left.
      split; [reflexivity|].
      exists [(CoreClient address, None); (OpenSession (db env) SCHEMA, None);
              (OpenTransaction {| session_db := db env;
                                  session_type := SCHEMA |} WRITE, None)], q.
      split; [reflexivity|repeat constructor].
Qed.

Lemma staged_schema_then_data debug env :
  staged (schema_then_data debug env).
Proof.
  intros w. unfold schema_then_data, bind.
  destruct (load_schema_cases env w) as (evs & Hl & Hc).
  destruct (load_schema env w) as [[ok|e] w1]; simpl in *.
  - destruct Hc as [(Hr & p & d & He & Hp)|(Hr & Hs)].
    + inversion Hr; subst ok.
      destruct (disciplined_load_data debug env w1)
        as (data & Hl2 & _ & Hcalls & _).
      exists (evs ++ data). rewrite Hl2, Hl, app_assoc.
      split; [reflexivity|]. right.
      exists p, d, None, ((Commit, None) :: data).
      rewrite He, <- app_assoc. simpl.
      repeat split; auto. right. exists data. auto.
    + destruct ok; [congruence|]. simpl. eauto.
  - destruct Hc as [(Hr & _)|(_ & Hs)]; [discriminate|]. eauto.
Qed.

Lemma staged_main debug env : staged (main debug env).
Proof.
  unfold main.
  apply staged_bind; [auto with boot|intros _].
  apply staged_bind; [apply boots_contains|intros present].
  destruct present.
  - apply staged_bind; [auto with boot|intros _].
    apply staged_bind; [apply boots_has_existing_data|intros existing].
    destruct existing; simpl.
    + apply staged_bind; [auto with boot|intros _].
      apply staged_bind; [auto with boot|intros answer].
      destruct (confirmed answer).
      * apply staged_bind; [auto with boot|intros _].
        apply staged_bind; [auto with boot|intros _].
        apply staged_bind; [auto with boot|intros _].
        apply staged_bind; [auto with boot|intros _].
        apply staged_schema_then_data.
      * apply staged_boots. unfold exit. auto with boot.
    + apply staged_bind; [auto with boot|intros _].
      apply staged_schema_then_data.
  - apply staged_bind; [auto with boot|intros _].
    apply staged_bind; [auto with boot|intros _].
    apply staged_bind; [auto with boot|intros _].
    apply staged_schema_then_data.
Qed.

(** The test of the confirmation prompt holds of every answer. *)
Lemma confirmed_always answer : confirmed answer = true.
Proof.
  unfold confirmed.
  destruct (String.eqb answer "delete"); reflexivity.
Qed.

(** The calls of a whole run have one of the shapes. *)
Lemma run_shape verbose env input_lines :
  schema_shape (stdout (snd (run verbose env input_lines)))
               (log (snd (run verbose env input_lines))).
Proof.
  unfold run.
  assert (H : staged (debug <- verbosity verbose ;; main debug env)).
  { apply staged_bind; [apply boots_verbosity|intros d; apply staged_main]. }
  destruct (H (start input_lines)) as (evs & Hl & Hs).
  simpl in Hl. rewrite Hl. exact Hs.
Qed.

(** *** Reading the shapes *)

Lemma plain_excludes (evs : list Event) pre x post :
  Forall (fun ev => plain ev = true) evs ->
  evs = pre ++ x :: post -> plain x = true.
Proof.
  intros H ->. apply Forall_app in H. destruct H as [_ H].
  now inversion H.
Qed.

Lemma plain_no_submission (p : list Event) :
  Forall (fun ev => plain ev = true) p -> filter is_insert p = [].
Proof.
  induction 1 as [|x l Hx _ IH]; simpl; [reflexivity|].
  unfold plain in Hx. apply andb_true_iff in Hx. destruct Hx as [Hx _].
  apply negb_true_iff in Hx. now rewrite Hx.
Qed.

Lemma no_submission_app (p rest : list Event) :
  Forall (fun ev => plain ev = true) p ->
  filter is_insert rest = [] ->
  submissions (p ++ rest) = 0%Z.
Proof.
  intros Hp Hr. unfold submissions, len.
  now rewrite filter_app, (plain_no_submission _ Hp), Hr.
Qed.

(** The place of the one schema definition among the calls. *)
Lemma define_position (p : list Event) : forall d o rest pre d' o' post,
  p ++ (QueryDefine d, o) :: rest = pre ++ (QueryDefine d', o') :: post ->
  Forall (fun ev => plain ev = true) p ->
  Forall (fun ev => is_define ev = false) rest ->
  pre = p /\ d' = d /\ o' = o /\ post = rest.
Proof.
  induction p as [|a p IH]; intros d o rest pre d' o' post H Hp Hr.
  - destruct pre as [|x pre]; simpl in H.
    + inversion H; subst. auto.
    + inversion H; subst. exfalso.
      apply Forall_app in Hr. destruct Hr as [_ Hr].
      inversion Hr as [|? ? Hx _]; subst. discriminate Hx.
  - inversion Hp as [|? ? Ha Hp']; subst.
    destruct pre as [|x pre]; simpl in H.
    + inversion H; subst. discriminate Ha.
    + inversion H; subst.
      destruct (IH _ _ _ _ _ _ _ H2 Hp' Hr) as (-> & -> & -> & ->). auto.
Qed.

(** An insert statement found among calls with a committed schema
    definition comes after the commit. *)
Lemma insert_after_commit (p : list Event) : forall D C data pre q o post,
  p ++ D :: C :: data = pre ++ (QueryInsert q, o) :: post ->
  Forall (fun ev => plain ev = true) p ->
  is_insert D = false -> is_insert C = false ->
  exists b, pre = p ++ D :: C :: b.
Proof.
  induction p as [|a p IH]; intros D C data pre q o post H Hp HD HC.
  - destruct pre as [|x [|y pre]]; simpl in H; inversion H; subst.
    + discriminate HD.
    + discriminate HC.
    + exists pre. reflexivity.
  - inversion Hp as [|? ? Ha Hp']; subst.
    destruct pre as [|x pre]; simpl in H; inversion H; subst.
    + discriminate Ha.
    + destruct (IH _ _ _ _ _ _ _ H2 Hp' HD HC) as (b & ->).
      exists b. reflexivity.
Qed.

Lemma loader_calls_no_define (data : list Event) :
  Forall (fun ev => loader_call (fst ev) = true) data ->
  Forall (fun ev => is_define ev = false) data.
Proof.
  apply Forall_impl. intros [c o]. unfold is_define. simpl.
  destruct c; simpl; intros H; try reflexivity; discriminate H.
Qed.

Lemma shape_rest (out : list (list PyArg)) (o : option Exn) rest :
  match o with
  | Some e =>
      rest = [] /\ (is_Exception e = true -> In (failure_message e) out)
  | None =>
      (exists e,
         rest = [(Commit, Some e)] /\
         (is_Exception e = true -> In (failure_message e) out)) \/
      (exists data,
         rest = (Commit, None) :: data /\
         Forall (fun ev => loader_call (fst ev) = true) data)
  end ->
  Forall (fun ev => is_define ev = false) rest.
Proof.
  destruct o as [e|].
  - intros [-> _]. constructor.
  - intros [(e & -> & _)|(data & -> & Hd)].
    + repeat constructor.
    + constructor; [reflexivity|]. now apply loader_calls_no_define.
Qed.

(** In every shape an insert statement comes after a committed schema
    definition. *)
Lemma shape_orders_inserts out evs :
  schema_shape out evs ->
  forall pre q o post,
    evs = pre ++ (QueryInsert q, o) :: post ->
    exists a d b, pre = a ++ (QueryDefine d, None) :: (Commit, None) :: b.
Proof.
  intros [Hp|(p & d & o' & rest & He & Hp & Ho)] pre q o post H.
  - pose proof (plain_excludes _ _ _ _ Hp H) as Hx. discriminate Hx.
  - rewrite He in H.
    destruct o' as [e|].
    + destruct Ho as [-> _]. exfalso.
      assert (Hall : Forall (fun ev => plain ev = true \/ is_define ev = true)
                       (p ++ [(QueryDefine d, Some e)])).
      { apply Forall_app. split.
        - eapply Forall_impl; [|exact Hp]. auto.
        - constructor; [right; reflexivity|constructor]. }
      rewrite H in Hall. apply Forall_app in Hall. destruct Hall as [_ Hall].
      inversion Hall as [|? ? Hx _]. destruct Hx as [Hx|Hx]; discriminate Hx.
    + destruct Ho as [(e & -> & _)|(data & -> & Hd)].
      * exfalso.
        assert (Hall : Forall (fun ev => is_insert ev = false)
                         (p ++ [(QueryDefine d, None); (Commit, Some e)])).
        { apply Forall_app. split.
          - eapply Forall_impl; [|exact Hp]. intros ev Hx.
            unfold plain in Hx. apply andb_true_iff in Hx.
            destruct Hx as [Hx _]. now apply negb_true_iff in Hx.
          - repeat constructor. }
        rewrite H in Hall. apply Forall_app in Hall.
        destruct Hall as [_ Hall].
        inversion Hall as [|? ? Hx _]. discriminate Hx.
      * destruct (insert_after_commit _ _ _ _ _ _ _ _ H Hp eq_refl eq_refl)
          as (b & ->).
        exists p, d, b. reflexivity.
Qed.

(** In every shape a schema definition that raised, or whose commit raised,
    is the end of the calls: no insert statement was submitted, and the
    failure, if an [Exception], was reported. *)
Lemma shape_failed_schema out evs :
  schema_shape out evs ->
  forall pre d e post,
    evs = pre ++ (QueryDefine d, Some e) :: post \/
    evs = pre ++ (QueryDefine d, None) :: (Commit, Some e) :: post ->
    submissions evs = 0%Z /\
    (is_Exception e = true -> In (failure_message e) out).
Proof.
  intros [Hp|(p & d0 & o & rest & He & Hp & Ho)] pre d e post H.
  - destruct H as [H|H];
      pose proof (plain_excludes _ _ _ _ Hp H) as Hx; discriminate Hx.
  - pose proof (shape_rest _ _ _ Ho) as Hr.
    destruct H as [H|H]; rewrite He in H;
      destruct (define_position _ _ _ _ _ _ _ _ H Hp Hr)
        as (-> & -> & <- & Hpost); simpl in Ho.
    + destruct Ho as [-> Hm]. split; [|assumption].
      rewrite He. now apply no_submission_app.
    + destruct Ho as [(e' & Hrest & Hm)|(data & Hrest & _)];
        rewrite Hrest in Hpost; inversion Hpost; subst.
      split; [|assumption].
      now apply no_submission_app.
Qed.

End BootFacts.

Import Py Py.Notations Loader Spec.
Local Open Scope py_scope.
Local Open Scope Z_scope.

(* ===================================================================== *)
(** ** More on the csv reader                                             *)
(* ===================================================================== *)

Module CsvMore.
Import Csv Spec More CsvFacts.

(** *** Rows and lines *)

Lemma reader_from_bound lines : forall r rows,
  reader_from r lines = Some rows ->
  (length rows <= S (length lines))%nat /\
  (r = parse_reset -> (length rows <= length lines)%nat).
Proof.
  induction lines as [|l rest IH]; simpl; intros r rows H.
  - split.
    + destruct (_ || _); inversion H; subst; simpl; lia.
    + intros ->. simpl in H. inversion H; subst. simpl. lia.
  - destruct (process_line r l) as [r'|]; [|discriminate].
    destruct (state_eqb (state r') START_RECORD).
    + destruct (reader_from parse_reset rest) as [rows'|] eqn:E;
        [|discriminate].
      inversion H; subst. simpl.
      destruct (IH _ _ E) as [_ Hb]. specialize (Hb eq_refl).
      split; intros; lia.
    + destruct (IH _ _ H) as [Hb _]. split; intros; lia.
Qed.

Lemma filter_length_le {A} (f : A -> bool) l :
  (length (filter f l) <= length l)%nat.
Proof.
  induction l as [|x l IH]; simpl; [lia|].
  destruct (f x); simpl; lia.
Qed.

Lemma DictReader_rows_bound rows :
  (length (DictReader_rows rows) <= Nat.pred (length rows))%nat.
Proof.
  destruct rows as [|h data]; simpl; [lia|].
  rewrite length_map. apply filter_length_le.
Qed.

(** *** Rows under distinct field names *)

Lemma dict_set_fresh k v d :
  ~ In k (keys d) -> dict_set k v d = d ++ [(k, v)].
Proof.
  unfold keys. induction d as [|[k0 v0] d IH]; simpl; intros H; [reflexivity|].
  destruct (key_eqb k k0) eqn:E.
  - exfalso. apply H. left.
    destruct k, k0; simpl in E; try discriminate; auto.
    apply String.eqb_eq in E. now subst.
  - rewrite IH; auto.
Qed.

Lemma keys_app (d1 d2 : Dict) : keys (d1 ++ d2) = keys d1 ++ keys d2.
Proof. unfold keys. apply map_app. Qed.

Lemma fold_set_fresh (kvs : list (Key * Value)) : forall d,
  NoDup (map fst kvs) ->
  (forall k, In k (map fst kvs) -> ~ In k (keys d)) ->
  fold_left (fun d kv => dict_set (fst kv) (snd kv) d) kvs d = d ++ kvs.
Proof.
  induction kvs as [|[k v] kvs IH]; simpl; intros d Hn Hd.
  - now rewrite app_nil_r.
  - inversion Hn as [|? ? Hk Hn']; subst.
    rewrite dict_set_fresh by (apply Hd; now left).
    rewrite IH; auto.
    + now rewrite <- app_assoc.
    + intros k' Hin. rewrite keys_app. intros Hc.
      apply in_app_or in Hc. destruct Hc as [Hc|[Hc|[]]].
      * exact (Hd k' (or_intror Hin) Hc).
      * simpl in Hc. subst k'. contradiction.
Qed.

Lemma fold_none_fresh (names : list string) : forall d,
  NoDup names ->
  (forall k, In k names -> ~ In (Some k) (keys d)) ->
  fold_left (fun d key => dict_set (Some key) VNone d) names d
  = d ++ map (fun k => (Some k, VNone)) names.
Proof.
  induction names as [|n names IH]; simpl; intros d Hn Hd.
  - now rewrite app_nil_r.
  - inversion Hn as [|? ? Hk Hn']; subst.
    rewrite dict_set_fresh by (apply Hd; now left).
    rewrite IH; auto.
    + now rewrite <- app_assoc.
    + intros k' Hin. rewrite keys_app. intros Hc.
      apply in_app_or in Hc. destruct Hc as [Hc|[Hc|[]]].
      * exact (Hd k' (or_intror Hin) Hc).
      * simpl in Hc. inversion Hc; subst. contradiction.
Qed.

Lemma combine_keys (names : list string) : forall (row : list string),
  map fst (combine (map Some names) (map VStr row))
  = map Some (firstn (length row) names).
Proof.
  induction names as [|n names IH]; intros [|x row]; simpl; auto.
  now rewrite IH.
Qed.

Lemma NoDup_map_Some (names : list string) :
  NoDup names -> NoDup (map (@Some string) names).
Proof.
  induction 1 as [|x l Hx _ IH]; simpl; constructor; auto.
  intros Hin. apply in_map_iff in Hin. destruct Hin as (y & Hy & Hin).
  inversion Hy; subst. contradiction.
Qed.

Lemma NoDup_firstn {A} (l : list A) n : NoDup l -> NoDup (firstn n l).
Proof.
  intros H. rewrite <- (firstn_skipn n l) in H.
  now apply NoDup_app_remove_r in H.
Qed.

Lemma NoDup_skipn {A} (l : list A) n : NoDup l -> NoDup (skipn n l).
Proof.
  intros H. rewrite <- (firstn_skipn n l) in H.
  now apply NoDup_app_remove_l in H.
Qed.

Lemma NoDup_firstn_skipn {A} (l : list A) n x :
  NoDup l -> In x (firstn n l) -> In x (skipn n l) -> False.
Proof.
  revert n. induction l as [|a l IH]; intros [|n] Hn H1 H2; simpl in *;
    try contradiction.
  inversion Hn as [|? ? Ha Hn']; subst.
  destruct H1 as [->|H1].
  - apply Ha. rewrite <- (firstn_skipn n l). apply in_or_app. now right.
  - eauto.
Qed.

Lemma make_row_distinct fieldnames row :
  NoDup fieldnames ->
  make_row fieldnames row =
  combine (map Some fieldnames) (map VStr row)
  ++ map (fun k => (Some k, VNone)) (skipn (length row) fieldnames)
  ++ (if Nat.ltb (length fieldnames) (length row)
      then [(None, VList (skipn (length fieldnames) row))]
      else []).
Proof.
  intros Hn. unfold make_row, dict_of_pairs.
  rewrite fold_set_fresh; simpl;
    [|rewrite combine_keys; apply NoDup_map_Some, NoDup_firstn, Hn|auto].
  destruct (Nat.ltb_spec (length fieldnames) (length row)) as [Hlt|Hge].
  - rewrite (skipn_all2 fieldnames) by lia. simpl.
    apply dict_set_fresh. unfold keys. rewrite combine_keys.
    intros Hin. apply in_map_iff in Hin. destruct Hin as (x & Hx & _).
    discriminate Hx.
  - rewrite app_nil_r.
    destruct (Nat.ltb_spec (length row) (length fieldnames)) as [Hlt|Hge'].
    + apply fold_none_fresh; [apply NoDup_skipn, Hn|].
      intros k Hk Hin. unfold keys in Hin. rewrite combine_keys in Hin.
      apply in_map_iff in Hin. destruct Hin as (x & Hx & Hin).
      inversion Hx; subst.
      eapply NoDup_firstn_skipn; eauto.
    + rewrite (skipn_all2 fieldnames) by lia. simpl. now rewrite app_nil_r.
Qed.

(** *** Looking a column up *)

Lemma dict_get_app k (a b : Dict) :
  dict_get k (a ++ b)
  = match dict_get k a with Some v => Some v | None => dict_get k b end.
Proof.
  induction a as [|[k0 v0] a IH]; simpl; [reflexivity|].
  destruct (key_eqb k k0); auto.
Qed.

Lemma key_eqb_Some (a b : string) : key_eqb (Some a) (Some b) = String.eqb a b.
Proof. reflexivity. Qed.

Lemma get_combine (names : list string) : forall row i k,
  NoDup names -> nth_error names i = Some k ->
  dict_get (Some k) (combine (map Some names) (map VStr row))
  = option_map VStr (nth_error row i).
Proof.
  induction names as [|n names IH]; intros row i k Hn Hk.
  - destruct i; discriminate Hk.
  - inversion Hn as [|? ? Hnin Hn']; subst.
    destruct row as [|x row]; simpl.
    + now rewrite nth_error_nil.
    + destruct i as [|i]; simpl in Hk.
      * inversion Hk; subst. now rewrite String.eqb_refl.
      * destruct (String.eqb_spec k n) as [->|Hneq].
        -- exfalso. apply Hnin. eapply nth_error_In; eauto.
        -- simpl. now apply IH.
Qed.

Lemma get_restval (l : list string) k :
  In k l -> dict_get (Some k) (map (fun k => (Some k, VNone)) l) = Some VNone.
Proof.
  induction l as [|x l IH]; simpl; [contradiction|].
  intros [->|H].
  - now rewrite String.eqb_refl.
  - destruct (String.eqb k x); auto.
Qed.

Lemma get_restkey_absent (d : Dict) :
  (forall k, In k (keys d) -> k <> None) -> dict_get None d = None.
Proof.
  unfold keys. induction d as [|[k0 v0] d IH]; simpl; intros H; [reflexivity|].
  destruct k0 as [k0|]; simpl.
  - apply IH. intros k Hk. apply H. now right.
  - exfalso. apply (H None); auto.
Qed.

Lemma make_row_lookup fieldnames row i k :
  NoDup fieldnames -> nth_error fieldnames i = Some k ->
  dict_get (Some k) (make_row fieldnames row) = Some (column_value row i).
Proof.
  intros Hn Hk. rewrite (make_row_distinct _ _ Hn), dict_get_app.
  rewrite (get_combine _ _ _ _ Hn Hk). unfold column_value.
  destruct (nth_error row i) as [v|] eqn:Er; simpl; [reflexivity|].
  rewrite dict_get_app, get_restval; [reflexivity|].
  apply nth_error_None in Er.
  apply (nth_error_In (skipn (length row) fieldnames) (i - length row)).
  rewrite nth_error_skipn. now replace (length row + (i - length row))%nat
    with i by lia.
Qed.

Lemma make_row_restkey fieldnames row :
  NoDup fieldnames ->
  dict_get None (make_row fieldnames row)
  = if Nat.ltb (length fieldnames) (length row)
    then Some (VList (skipn (length fieldnames) row))
    else None.
Proof.
  intros Hn. rewrite (make_row_distinct _ _ Hn), !dict_get_app.
  rewrite get_restkey_absent.
  - rewrite get_restkey_absent.
    + destruct (Nat.ltb _ _); reflexivity.
    + unfold keys. rewrite map_map. simpl. intros k Hin.
      apply in_map_iff in Hin. destruct Hin as (x & <- & _). discriminate.
  - unfold keys. rewrite combine_keys. intros k Hin.
    apply in_map_iff in Hin. destruct Hin as (x & <- & _). discriminate.
Qed.

(** *** Lines of plain fields *)

Lemma string_app_assoc (a b c : string) :
  ((a ++ b) ++ c = a ++ (b ++ c))%string.
Proof. induction a as [|x a IH]; simpl; [reflexivity|now rewrite IH]. Qed.

Lemma string_app_nil_r (a : string) : (a ++ "" = a)%string.
Proof. induction a as [|x a IH]; simpl; [reflexivity|now rewrite IH]. Qed.

Lemma string_length_app (a b : string) :
  String.length (a ++ b) = (String.length a + String.length b)%nat.
Proof. induction a as [|x a IH]; simpl; [reflexivity|now rewrite IH]. Qed.

Lemma plain_char_spec c :
  plain_char c = true ->
  is_crlf c = false /\ Ascii.eqb c quotechar = false /\
  Ascii.eqb c delimiter = false /\ Ascii.eqb c LF = false.
Proof.
  unfold plain_char. intros H. apply negb_true_iff in H.
  apply orb_false_iff in H. destruct H as [H Hd].
  apply orb_false_iff in H. destruct H as [Hc Hq].
  repeat split; auto.
  unfold is_crlf in Hc. apply orb_false_iff in Hc. tauto.
Qed.

Lemma chars_in_field s : forall r,
  state r = IN_FIELD ->
  forallb plain_char (list_ascii_of_string s) = true ->
  (Z.of_nat (String.length (field r) + String.length s) <= field_limit)%Z ->
  process_chars r s
  = Some {| state := IN_FIELD; field := (field r ++ s)%string;
            fields := fields r |}.
Proof.
  induction s as [|c s IH]; simpl; intros r Hs Hp Hl.
  - rewrite string_app_nil_r. destruct r; simpl in *; now subst.
  - apply andb_true_iff in Hp. destruct Hp as [Hc Hp].
    destruct (plain_char_spec _ Hc) as (Hcr & _ & Hd & _).
    unfold parse_process_char. rewrite Hs, Hcr, Hd.
    unfold parse_add_char.
    destruct (Z.leb_spec field_limit (Z.of_nat (String.length (field r))));
      [lia|].
    rewrite IH; simpl; auto.
    + now rewrite string_app_assoc.
    + rewrite string_length_app. simpl. lia.
Qed.

Lemma chars_spaces n : forall r,
  at_field_start r ->
  exists r',
    process_chars r (spaces n) = Some r' /\ at_field_start r' /\
    fields r' = fields r /\
    (state r = START_FIELD -> state r' = START_FIELD) /\
    (n = O -> r' = r) /\ (n <> O -> state r' = START_FIELD).
Proof.
  induction n as [|n IH]; simpl; intros r Hr.
  - exists r. repeat split; auto; try apply Hr; congruence.
  - destruct Hr as [Hs Hf].
    assert (E : parse_process_char r (Some space)
                = Some (set_state START_FIELD r)).
    { unfold parse_process_char. destruct Hs as [-> | ->]; reflexivity. }
    rewrite E.
    destruct (IH (set_state START_FIELD r)) as (r' & Hp & Hr' & Hfs & Hk & _).
    { split; simpl; auto. }
    exists r'. repeat split; auto; try discriminate; apply Hr'.
Qed.

Lemma chars_field f r :
  at_field_start r -> plain_field f = true -> f <> EmptyString ->
  process_chars r f
  = Some {| state := IN_FIELD; field := f; fields := fields r |}.
Proof.
  intros [Hs Hf] Hp Hne. destruct f as [|c f]; [contradiction|].
  unfold plain_field in Hp.
  apply andb_true_iff in Hp. destruct Hp as [Hp Hl].
  apply andb_true_iff in Hp. destruct Hp as [Hp Hsp].
  simpl in Hp. apply andb_true_iff in Hp. destruct Hp as [Hc Hp].
  apply negb_true_iff in Hsp. apply Z.leb_le in Hl.
  destruct (plain_char_spec _ Hc) as (Hcr & Hq & Hd & _).
  simpl.
  assert (E : parse_process_char r (Some c)
              = Some {| state := IN_FIELD; field := String c "";
                        fields := fields r |}).
  { unfold parse_process_char, parse_add_char.
    destruct Hs as [-> | ->]; rewrite Hcr, Hq, Hsp, Hd, Hf; reflexivity. }
  rewrite E. rewrite chars_in_field; simpl; auto.
Qed.

(** After the padding and the field, the reader holds the field, collected
    or still empty. *)
Lemma chars_padded_field n f r :
  at_field_start r -> plain_field f = true ->
  exists r1,
    process_chars r (spaces n ++ f) = Some r1 /\
    fields r1 = fields r /\ field r1 = f /\
    ((f <> EmptyString /\ state r1 = IN_FIELD) \/
     (f = EmptyString /\ at_field_start r1 /\
      (state r = START_FIELD \/ n <> O -> state r1 = START_FIELD))).
Proof.
  intros Hr Hp.
  destruct (chars_spaces n r Hr) as (r' & Hsp & Hr' & Hfs & Hk & H0 & Hn).
  rewrite process_chars_app, Hsp.
  destruct f as [|c f].
  - exists r'. simpl. repeat split; auto; [apply Hr'|].
    right. repeat split; try apply Hr'.
    intros [H|H]; auto.
  - rewrite (chars_field _ _ Hr' Hp) by discriminate.
    eexists. repeat split; simpl; auto. left. split; [discriminate|reflexivity].
Qed.

(** The characters of a line of plain fields leave the reader after the
    line terminator with exactly those fields. *)
Lemma chars_csv_line fs : forall r,
  fs <> [] -> at_field_start r ->
  Forall (fun f => plain_field f = true) (map snd fs) ->
  (state r = START_FIELD \/ fs <> [(O, EmptyString)]) ->
  process_chars r (csv_line fs)
  = Some {| state := EAT_CRNL; field := "";
            fields := fields r ++ map snd fs |}.
Proof.
  induction fs as [|[n f] rest IH]; intros r Hne Hr Hp Hx; [contradiction|].
  simpl in Hp. inversion Hp as [|? ? Hpf Hprest]; subst.
  destruct (chars_padded_field n f r Hr Hpf)
    as (r1 & H1 & Hfs1 & Hf1 & Hcase).
  simpl csv_line. destruct rest as [|p rest].
  - rewrite <- string_app_assoc, process_chars_app, H1. simpl.
    unfold parse_process_char.
    destruct Hcase as [(Hfne & Hs1)|(Hfe & Hr1 & Hs1)].
    + rewrite Hs1. change (is_crlf LF) with true. cbv iota.
      unfold set_state, parse_save_field. simpl.
      now rewrite Hfs1, Hf1.
    + assert (Hst : state r1 = START_FIELD).
      { apply Hs1. destruct Hx as [Hx|Hx]; [now left|].
        right. intros ->. apply Hx. now rewrite Hfe. }
      rewrite Hst. change (is_crlf LF) with true. cbv iota.
      unfold set_state, parse_save_field. simpl.
      now rewrite Hfs1, Hf1.
  - rewrite <- string_app_assoc, process_chars_app, H1.
    assert (E : parse_process_char r1 (Some delimiter)
                = Some {| state := START_FIELD; field := "";
                          fields := fields r ++ [f] |}).
    { unfold parse_process_char.
      destruct Hcase as [(Hfne & Hs1)|(Hfe & [[Hs1|Hs1] _] & _)];
        rewrite Hs1; simpl; unfold set_state, parse_save_field; simpl;
        now rewrite Hfs1, Hf1. }
    change (process_chars r1 (String delimiter (csv_line (p :: rest))))
      with (match parse_process_char r1 (Some delimiter) with
            | Some r' => process_chars r' (csv_line (p :: rest))
            | None => None
            end).
    rewrite E. rewrite IH; simpl; auto; try discriminate.
    + now rewrite <- app_assoc.
    + split; simpl; auto.
Qed.

Lemma line_csv_line fs :
  plain_line fs ->
  process_line parse_reset (csv_line fs)
  = Some {| state := START_RECORD; field := ""; fields := map snd fs |}.
Proof.
  intros (Hne & Hx & Hp). unfold process_line.
  rewrite chars_csv_line; auto.
  split; simpl; auto.
Qed.

(** A file of plain lines is read back row by row. *)
Lemma reader_plain_lines (fss : list (list (nat * string))) :
  Forall plain_line fss ->
  reader (map csv_line fss) = Some (map (map snd) fss).
Proof.
  unfold reader. induction 1 as [|fs fss Hfs _ IH]; simpl; [reflexivity|].
  rewrite (line_csv_line _ Hfs). simpl. now rewrite IH.
Qed.

(** *** The lines of a text of plain lines *)

Lemma readlines_from_free s : forall cur t,
  has_lf s = false ->
  readlines_from cur (s ++ t) = readlines_from (cur ++ s)%string t.
Proof.
  unfold has_lf.
  induction s as [|c s IH];
    cbn [list_ascii_of_string existsb append readlines_from]; intros cur t H.
  - now rewrite string_app_nil_r.
  - apply orb_false_iff in H. destruct H as [Hc Hs].
    rewrite Ascii.eqb_sym, Hc, IH by assumption.
    now rewrite string_app_assoc.
Qed.

Lemma spaces_free n : has_lf (spaces n) = false.
Proof. induction n as [|n IH]; [reflexivity|exact IH]. Qed.

Lemma plain_field_free f : plain_field f = true -> has_lf f = false.
Proof.
  unfold plain_field, has_lf. intros H.
  apply andb_true_iff in H. destruct H as [H _].
  apply andb_true_iff in H. destruct H as [H _].
  induction (list_ascii_of_string f) as [|c l IH];
    cbn [forallb existsb] in *; [reflexivity|].
  apply andb_true_iff in H. destruct H as [Hc Hl].
  destruct (plain_char_spec _ Hc) as (_ & _ & _ & Hlf).
  rewrite Ascii.eqb_sym, Hlf. auto.
Qed.

(** A line of plain fields is its body, free of line feeds, and one line
    feed. *)
Lemma csv_line_body fs :
  fs <> [] -> Forall (fun f => plain_field f = true) (map snd fs) ->
  exists body,
    csv_line fs = (body ++ String LF "")%string /\ has_lf body = false.
Proof.
  induction fs as [|[n f] rest IH]; intros Hne Hp; [contradiction|].
  simpl in Hp. inversion Hp as [|? ? Hpf Hprest]; subst.
  simpl csv_line. destruct rest as [|p rest].
  - exists (spaces n ++ f)%string. split.
    + now rewrite string_app_assoc.
    + now rewrite has_lf_app, spaces_free, plain_field_free.
  - destruct (IH ltac:(discriminate) Hprest) as (body & Hb & Hf).
    exists (spaces n ++ f ++ String delimiter body)%string. split.
    + rewrite Hb. now rewrite !string_app_assoc.
    + rewrite !has_lf_app, spaces_free, plain_field_free by assumption.
      exact Hf.
Qed.

Lemma readlines_csv_text (fss : list (list (nat * string))) :
  Forall plain_line fss -> readlines (csv_text fss) = map csv_line fss.
Proof.
  unfold readlines. induction 1 as [|fs fss (Hne & _ & Hp) _ IH]; simpl;
    [reflexivity|].
  destruct (csv_line_body fs Hne Hp) as (body & Hb & Hf).
  rewrite Hb, string_app_assoc, readlines_from_free by assumption.
  simpl. now rewrite IH.
Qed.

Lemma plain_rows_kept (fss : list (list (nat * string))) :
  Forall plain_line fss ->
  filter (fun r => negb (is_blank_row r)) (map (map snd) fss)
  = map (map snd) fss.
Proof.
  induction 1 as [|fs fss (Hne & _) _ IH]; simpl; [reflexivity|].
  destruct fs; [contradiction|]. simpl. now rewrite IH.
Qed.

(** *** Looking a column up, whatever the header *)

Lemma key_eqb_eq (a b : Key) : key_eqb a b = true <-> a = b.
Proof.
  destruct a as [a|], b as [b|]; simpl; split; intros H;
    try discriminate; try reflexivity.
  - apply String.eqb_eq in H. now subst.
  - inversion H. apply String.eqb_refl.
Qed.

Lemma key_eqb_refl (a : Key) : key_eqb a a = true.
Proof. now apply key_eqb_eq. Qed.

Lemma dict_get_set k k' v d :
  dict_get k (dict_set k' v d)
  = if key_eqb k k' then Some v else dict_get k d.
Proof.
  induction d as [|[k0 v0] d IH]; simpl.
  - reflexivity.
  - destruct (key_eqb k' k0) eqn:E; simpl.
    + apply key_eqb_eq in E. subst k0.
      destruct (key_eqb k k'); reflexivity.
    + rewrite IH. destruct (key_eqb k k0) eqn:E0; [|reflexivity].
      apply key_eqb_eq in E0. subst k0.
      destruct (key_eqb k k') eqn:E1; [|reflexivity].
      apply key_eqb_eq in E1. subst k'. rewrite key_eqb_refl in E.
      discriminate E.
Qed.

Lemma get_fold_other (kvs : list (Key * Value)) : forall d k,
  ~ In k (map fst kvs) ->
  dict_get k (fold_left (fun d kv => dict_set (fst kv) (snd kv) d) kvs d)
  = dict_get k d.
Proof.
  induction kvs as [|[k0 v0] kvs IH]; simpl; intros d k H; [reflexivity|].
  rewrite IH by tauto. rewrite dict_get_set.
  destruct (key_eqb k k0) eqn:E; [|reflexivity].
  apply key_eqb_eq in E. subst k0. tauto.
Qed.

(** The value under a key is the one set last. *)
Lemma get_fold_last (a b : list (Key * Value)) k v d :
  ~ In k (map fst b) ->
  dict_get k (fold_left (fun d kv => dict_set (fst kv) (snd kv) d)
                (a ++ (k, v) :: b) d)
  = Some v.
Proof.
  intros H. rewrite fold_left_app. simpl.
  rewrite get_fold_other by assumption.
  now rewrite dict_get_set, key_eqb_refl.
Qed.

Lemma dict_get_keys k d v : dict_get k d = Some v -> In k (keys d).
Proof.
  unfold keys. induction d as [|[k0 v0] d IH]; simpl; [discriminate|].
  destruct (key_eqb k k0) eqn:E; [|auto].
  intros _. left. apply key_eqb_eq in E. now subst.
Qed.

Lemma fold_none_pairs (names : list string) : forall d,
  fold_left (fun d key => dict_set (Some key) VNone d) names d
  = fold_left (fun d kv => dict_set (fst kv) (snd kv) d)
      (map (fun k => (Some k, VNone)) names) d.
Proof.
  induction names as [|n names IH]; simpl; intros d; [reflexivity|].
  apply IH.
Qed.

(** A row is its columns set one after the other, then the surplus. *)
Lemma make_row_columns fieldnames row :
  make_row fieldnames row
  = fold_left (fun d kv => dict_set (fst kv) (snd kv) d)
      (columns fieldnames row
       ++ (if Nat.ltb (length fieldnames) (length row)
           then [(None, VList (skipn (length fieldnames) row))]
           else []))
      [].
Proof.
  unfold make_row, dict_of_pairs, columns.
  rewrite !fold_left_app.
  destruct (Nat.ltb_spec (length fieldnames) (length row)) as [Hlt|Hge].
  - rewrite (skipn_all2 fieldnames) by lia. reflexivity.
  - simpl. rewrite <- fold_none_pairs.
    destruct (Nat.ltb_spec (length row) (length fieldnames)) as [Hlt|Hge'];
      [reflexivity|].
    rewrite (skipn_all2 fieldnames) by lia. reflexivity.
Qed.

Lemma columns_keys (names : list string) : forall row,
  map fst (columns names row) = map Some names.
Proof.
  unfold columns.
  induction names as [|n names IH]; intros [|x row]; simpl; auto.
  - f_equal. rewrite map_map. reflexivity.
  - f_equal. apply IH.
Qed.

Lemma columns_nth (names : list string) : forall row i k,
  nth_error names i = Some k ->
  nth_error (columns names row) i = Some (Some k, column_value row i).
Proof.
  unfold columns, column_value.
  induction names as [|n names IH]; intros row i k H.
  - destruct i; discriminate H.
  - destruct row as [|x row], i as [|i]; simpl in *.
    + inversion H; subst. reflexivity.
    + rewrite nth_error_map, H. reflexivity.
    + inversion H; subst. reflexivity.
    + now apply IH.
Qed.

Lemma in_last (k : string) l :
  In k l -> exists i, nth_error l i = Some k /\ ~ In k (skipn (S i) l).
Proof.
  induction l as [|a l IH]; simpl; [contradiction|].
  intros H.
  destruct (in_dec string_dec k l) as [Hin|Hnin].
  - destruct (IH Hin) as (i & Hi & Hn). exists (S i). auto.
  - destruct H as [->|H]; [|contradiction].
    exists O. split; [reflexivity|]. simpl. assumption.
Qed.

Lemma make_row_last fieldnames row i k :
  nth_error fieldnames i = Some k -> ~ In k (skipn (S i) fieldnames) ->
  dict_get (Some k) (make_row fieldnames row) = Some (column_value row i).
Proof.
  intros Hk Hlast. rewrite make_row_columns.
  pose proof (columns_nth fieldnames row i k Hk) as Hc.
  pose proof (columns_keys fieldnames row) as Hkeys.
  destruct (nth_error_split _ _ Hc) as (a & b & Hab & Hlen).
  rewrite Hab, <- app_assoc. simpl.
  apply get_fold_last.
  rewrite map_app. intros Hin. apply in_app_or in Hin.
  destruct Hin as [Hin|Hin].
  - apply Hlast.
    assert (Hb : map fst b = map Some (skipn (S i) fieldnames)).
    { rewrite <- skipn_map, <- Hkeys, Hab, map_app, <- Hlen.
      rewrite <- (length_map fst a). simpl map.
      generalize (map fst a). intros l.
      induction l as [|x l IHl]; simpl; auto. }
    rewrite Hb in Hin.
    apply in_map_iff in Hin. destruct Hin as (x & Hx & Hin).
    inversion Hx; subst. assumption.
  - destruct (Nat.ltb _ _); simpl in Hin; [|contradiction].
    destruct Hin as [Hin|[]]. discriminate Hin.
Qed.

Lemma make_row_surplus fieldnames row :
  dict_get None (make_row fieldnames row)
  = if Nat.ltb (length fieldnames) (length row)
    then Some (VList (skipn (length fieldnames) row))
    else None.
Proof.
  rewrite make_row_columns.
  destruct (Nat.ltb (length fieldnames) (length row)).
  - apply get_fold_last. simpl. tauto.
  - rewrite app_nil_r, get_fold_other; [reflexivity|].
    rewrite columns_keys. intros Hin.
    apply in_map_iff in Hin. destruct Hin as (x & Hx & _). discriminate Hx.
Qed.

(** A row read against the header is the record of that row. *)
Lemma make_row_record fieldnames row :
  record_of fieldnames (make_row fieldnames row) row.
Proof.
  unfold record_of. split; [|split].
  - intros k. split; [apply make_row_keys|].
    intros Hin. destruct (in_last _ _ Hin) as (i & Hi & Hn).
    eapply dict_get_keys. now apply make_row_last with (i := i).
  - intros i k. apply make_row_last.
  - apply make_row_surplus.
Qed.

Lemma DictReader_rows_records rows :
  Forall2 (record_of (hd [] rows)) (DictReader_rows rows)
    (filter (fun r => negb (is_blank_row r)) (tl rows)).
Proof.
  destruct rows as [|fieldnames data]; simpl; [constructor|].
  induction (filter (fun r => negb (is_blank_row r)) data) as [|r l IH];
    simpl; constructor; auto using make_row_record.
Qed.

End CsvMore.

(* ===================================================================== *)
(** ** More on the load                                                   *)
(* ===================================================================== *)

Module LoadMore.
Import Py Py.Notations Loader Spec More LoaderFacts PassFacts.
Local Open Scope py_scope.
Local Open Scope Z_scope.

(** *** Calls of a pass *)

Lemma for_items_calls debug env input session items : forall l w l' w',
  for_items debug env input session items l w = (Ret l', w') ->
  exists evs,
    log w' = log w ++ evs /\
    Forall succeeded evs /\
    transactions evs = len items /\
    commits evs = len (submitted_items input items) /\
    submissions evs = len (submitted_items input items).
Proof.
  induction items as [|item rest IH]; simpl; intros l w l' w' H.
  - inversion H; subst. exists []. rewrite app_nil_r.
    repeat split; auto.
  - unfold bind in H.
    pose proof (loop_body_cases debug env input session item l w) as Hc.
    cbv zeta in Hc.
    destruct (loop_body debug env input session item l w) as [[l1|e] w1];
      simpl in Hc; [|discriminate].
    destruct (IH _ _ _ _ H) as (evs & Hl & Hok & Ht & Hcm & Hsub).
    unfold transactions, commits, submissions, submitted_items, len in *.
    destruct Hc as [(e & He & _)|[(Hq & Hr & Hl1)|[(_ & e & He & _)|
                   [(_ & e & He & _)|(Hq & Hr & Hl1)]]]];
      try discriminate.
    + exists ((OpenTransaction session WRITE, None) :: evs).
      rewrite Hl, Hl1, <- app_assoc. simpl. rewrite Hq. simpl.
      repeat split; auto.
      * constructor; [reflexivity|assumption].
      * simpl length. lia.
    + apply String.eqb_neq in Hq.
      exists ([(OpenTransaction session WRITE, None);
               (QueryInsert (load input item), None); (Commit, None)] ++ evs).
      rewrite Hl, Hl1, <- app_assoc. simpl. rewrite Hq. simpl.
      repeat split; auto.
      * repeat (constructor; [reflexivity|]). assumption.
      * simpl length. lia.
      * simpl length. lia.
      * simpl length. lia.
Qed.

Lemma inserted_statements_app (a b : list (Call * option Exn)) :
  inserted_statements (a ++ b)
  = inserted_statements a ++ inserted_statements b.
Proof.
  induction a as [|[c o] a IH]; simpl; [reflexivity|].
  destruct c; simpl; now rewrite IH.
Qed.

Lemma for_items_statements debug env input session items : forall l w l' w',
  for_items debug env input session items l w = (Ret l', w') ->
  exists evs,
    log w' = log w ++ evs /\
    inserted_statements evs = map (load input) (submitted_items input items).
Proof.
  induction items as [|item rest IH]; simpl; intros l w l' w' H.
  - inversion H; subst. exists []. now rewrite app_nil_r.
  - unfold bind in H.
    pose proof (loop_body_cases debug env input session item l w) as Hc.
    cbv zeta in Hc.
    destruct (loop_body debug env input session item l w) as [[l1|e] w1];
      simpl in Hc; [|discriminate].
    destruct (IH _ _ _ _ H) as (evs & Hl & Hs).
    unfold submitted_items in *.
    destruct Hc as [(e & He & _)|[(Hq & Hr & Hl1)|[(_ & e & He & _)|
                   [(_ & e & He & _)|(Hq & Hr & Hl1)]]]];
      try discriminate.
    + exists ((OpenTransaction session WRITE, None) :: evs).
      rewrite Hl, Hl1, <- app_assoc. simpl. rewrite Hq. simpl. auto.
    + apply String.eqb_neq in Hq.
      exists ([(OpenTransaction session WRITE, None);
               (QueryInsert (load input item), None); (Commit, None)] ++ evs).
      rewrite Hl, Hl1, <- app_assoc. simpl. rewrite Hq. simpl.
      split; [reflexivity|]. now rewrite Hs.
Qed.

(** The calls of a completed pass. *)
Lemma pass_calls debug env input session w w' :
  load_data_into_typedb debug env input session w = (Ret tt, w') ->
  debug = false /\
  pass_items env input <> [] /\
  stdin w' = stdin w /\
  stdout w' = stdout w ++ [pass_summary env input] /\
  exists evs,
    log w' = log w ++ evs /\
    Forall succeeded evs /\
    transactions evs = len (pass_items env input) /\
    commits evs = len (submitted_items input (pass_items env input)) /\
    submissions evs = len (submitted_items input (pass_items env input)).
Proof.
  intros H.
  destruct (pass_completed _ _ _ _ _ _ H)
    as (-> & text & items & evs0 & Hf & Hd & Hne & Hl0 & _ & Hout).
  assert (Hi : pass_items env input = items).
  { unfold pass_items. now rewrite Hf, Hd. }
  split; [reflexivity|]. rewrite Hi. split; [assumption|].
  destruct (disciplined_pass false env input session w)
    as (evs1 & _ & Hin & _).
  rewrite H in Hin. simpl in Hin.
  split; [assumption|].
  split; [unfold pass_summary; now rewrite Hi|].
  unfold load_data_into_typedb, bind in H.
  rewrite parse_quiet, Hf, Hd in H.
  destruct (for_items false env input session items _ w) as [[l|e] w1] eqn:Ef;
    [|discriminate].
  destruct (for_items_calls _ _ _ _ _ _ _ _ _ Ef)
    as (evs & Hl & Hok & Ht & Hc & Hs).
  destruct (input_object l); simpl in H; [|discriminate].
  unfold print in H. inversion H; subst w'. simpl.
  exists evs. repeat split; auto.
Qed.

(** *** A client that never raises *)

Lemma call_ok env c w :
  never_fails env -> call env c w = (Ret tt, record_call c None w).
Proof. intros H. unfold call. now rewrite H. Qed.

Lemma loop_body_ok debug env input session item l w :
  never_fails env ->
  exists l1 w1, loop_body debug env input session item l w = (Ret l1, w1).
Proof.
  intros H. unfold loop_body, bind, call, when, ret, print.
  rewrite H.
  destruct (negb (String.eqb (load input item) "")), debug; simpl;
    rewrite ?H; simpl; rewrite ?H; eauto.
Qed.

Lemma for_items_ok debug env input session items : forall l w,
  never_fails env ->
  exists l' w', for_items debug env input session items l w = (Ret l', w').
Proof.
  induction items as [|item rest IH]; simpl; intros l w H;
    [unfold ret; eauto|].
  unfold bind.
  destruct (loop_body_ok debug env input session item l w H)
    as (l1 & w1 & ->).
  apply IH; assumption.
Qed.

Lemma pass_ok env input session w :
  never_fails env -> pass_items env input <> [] ->
  exists w', load_data_into_typedb false env input session w = (Ret tt, w').
Proof.
  intros H Hne. unfold load_data_into_typedb, bind.
  rewrite parse_quiet. unfold pass_items in Hne.
  destruct (files env (file input)) as [text|]; [|contradiction].
  destruct (Csv.DictReader text) as [items|]; [|contradiction].
  destruct (for_items_ok false env input session items
              {| skip_count := 0; input_object := None |} w H)
    as (l & w1 & Ef).
  rewrite Ef.
  destruct (for_items_tally _ _ _ _ _ _ _ _ _ Ef) as (_ & _ & Ho & _).
  destruct (Ho Hne) as (it & ->). simpl. unfold print. eauto.
Qed.

Lemma submissions_app (a b : list (Call * option Exn)) :
  submissions (a ++ b) = submissions a + submissions b.
Proof.
  unfold submissions, len. rewrite filter_app, length_app. lia.
Qed.

Lemma for_input_types_ok env session types : forall w,
  never_fails env ->
  (forall t, In t types -> pass_items env t <> []) ->
  exists w',
    for_input_types false env session types w = (Ret tt, w') /\
    stdin w' = stdin w /\
    stdout w' = stdout w ++ map (pass_summary env) types /\
    exists evs,
      log w' = log w ++ evs /\
      Forall succeeded evs /\
      submissions evs = total_submitted env types.
Proof.
  induction types as [|t rest IH]; simpl; intros w H Hne.
  - exists w. rewrite app_nil_r. repeat split; auto.
    exists []. rewrite app_nil_r. repeat split; auto.
  - unfold bind at 1. simpl. unfold bind.
    destruct (pass_ok env t session w H (Hne t (or_introl eq_refl)))
      as (w1 & Hp).
    rewrite Hp.
    destruct (pass_calls _ _ _ _ _ _ Hp)
      as (_ & _ & Hin & Hout & evs1 & Hl1 & Hok1 & _ & _ & Hs1).
    destruct (IH w1 H (fun t' Ht => Hne t' (or_intror Ht)))
      as (w' & Hr & Hin' & Hout' & evs2 & Hl2 & Hok2 & Hs2).
    exists w'. rewrite Hr, Hin', Hin, Hout', Hout, <- app_assoc.
    repeat split; auto.
    exists (evs1 ++ evs2). rewrite Hl2, Hl1, <- app_assoc.
    repeat split; auto.
    + apply Forall_app; auto.
    + rewrite submissions_app. lia.
Qed.

(** *** What a load prints *)

Lemma summary_not_completion a b c d : summary a b c d <> completion_line.
Proof. unfold summary, completion_line. discriminate. Qed.

Lemma pass_output env input session w :
  exists outs,
    stdout (snd (load_data_into_typedb false env input session w))
    = stdout w ++ outs /\
    ~ In completion_line outs.
Proof.
  destruct (load_data_into_typedb false env input session w)
    as [[[]|e] w1] eqn:Hp.
  - destruct (pass_calls _ _ _ _ _ _ Hp) as (_ & _ & _ & Hout & _).
    exists [pass_summary env input]. split; [assumption|].
    intros [Hc|[]]. exact (summary_not_completion _ _ _ _ Hc).
  - pose proof (pass_raise_quiet env input session w e) as Hq.
    rewrite Hp in Hq. exists []. rewrite app_nil_r.
    split; [now apply Hq|auto].
Qed.

Lemma for_input_types_output debug env session types : forall w,
  exists outs,
    stdout (snd (for_input_types debug env session types w))
    = stdout w ++ outs /\
    ~ In completion_line outs.
Proof.
  destruct debug.
  - intros w. destruct types as [|t rest]; simpl.
    + exists []. now rewrite app_nil_r.
    + eexists. split; [reflexivity|].
      intros [Hc|[]]. discriminate Hc.
  - induction types as [|t rest IH]; simpl; intros w.
    + exists []. now rewrite app_nil_r.
    + unfold bind at 1. simpl. unfold bind.
      destruct (pass_output env t session w) as (outs1 & Ho1 & Hn1).
      destruct (load_data_into_typedb false env t session w)
        as [[[]|e] w1]; simpl in *.
      * destruct (IH w1) as (outs2 & Ho2 & Hn2).
        exists (outs1 ++ outs2). rewrite Ho2, Ho1, <- app_assoc.
        split; [reflexivity|].
        intros Hin. apply in_app_or in Hin. tauto.
      * exists outs1. auto.
Qed.

Lemma load_data_output debug env w :
  exists outs,
    stdout (snd (load_data debug env w)) = stdout w ++ outs /\
    (fst (load_data debug env w) = Ret tt <-> In completion_line outs).
Proof.
  unfold load_data, client_session, bind, call, ret, print, record_call.
  run_call; [exists []; rewrite app_nil_r; split;
             [reflexivity|split; [discriminate|contradiction]]|].
  run_call; [exists []; rewrite app_nil_r; split;
             [reflexivity|split; [discriminate|contradiction]]|].
  match goal with
  | |- context [for_input_types debug env ?s ?l ?w0] =>
      destruct (for_input_types_output debug env s l w0) as (outs & Ho & Hn);
      destruct (for_input_types debug env s l w0) as [[[]|e] w1]
  end; simpl in *.
  - exists (outs ++ [completion_line]). rewrite Ho, <- app_assoc.
    split; [reflexivity|]. split; [|reflexivity].
    intros _. apply in_or_app. right. now left.
  - exists outs. split; [assumption|].
    split; [discriminate|]. intros Hin. contradiction.
Qed.

(** *** The calls of a pass, record by record *)

Lemma extend_extend w o1 e1 o2 e2 :
  extend (extend w o1 e1) o2 e2 = extend w (o1 ++ o2) (e1 ++ e2).
Proof. unfold extend. simpl. now rewrite !app_assoc. Qed.

Lemma extend_nil w : extend w [] [] = w.
Proof. destruct w. unfold extend. simpl. now rewrite !app_nil_r. Qed.


Lemma succeeded_calls_ok calls : Forall succeeded (succeeded_calls calls).
Proof. induction calls; simpl; constructor; auto. reflexivity. Qed.

Ltac settle :=
  unfold extend; simpl; rewrite ?app_nil_r, <- ?app_assoc; simpl;
  reflexivity.

(** The five ways through one iteration, with what the client answered. *)
Lemma loop_body_paths env input session item l w :
  let r := loop_body false env input session item l w in
  let q := load input item in
  let tx := OpenTransaction session WRITE in
  let o := Some {| object_class := input; object_item := item |} in
  (exists e, fault env (log w) tx = Some e /\
             r = (Raise e, extend w [] [(tx, Some e)])) \/
  (q = "" /\ fault env (log w) tx = None /\
   r = (Ret {| skip_count := skip_count l + 1; input_object := o |},
        extend w [] [(tx, None)])) \/
  (q <> "" /\ fault env (log w) tx = None /\
   exists e, fault env (log w ++ [(tx, None)]) (QueryInsert q) = Some e /\
   r = (Raise e, extend w [] [(tx, None); (QueryInsert q, Some e)])) \/
  (q <> "" /\ fault env (log w) tx = None /\
   fault env (log w ++ [(tx, None)]) (QueryInsert q) = None /\
   exists e,
     fault env ((log w ++ [(tx, None)]) ++ [(QueryInsert q, None)]) Commit
     = Some e /\
     r = (Raise e,
          extend w [] [(tx, None); (QueryInsert q, None); (Commit, Some e)])) \/
  (q <> "" /\ fault env (log w) tx = None /\
   fault env (log w ++ [(tx, None)]) (QueryInsert q) = None /\
   fault env ((log w ++ [(tx, None)]) ++ [(QueryInsert q, None)]) Commit
   = None /\
   r = (Ret {| skip_count := skip_count l; input_object := o |},
        extend w [] [(tx, None); (QueryInsert q, None); (Commit, None)])).
Proof.
  cbv zeta. unfold loop_body, bind, call, when, ret, print, record_call.
  run_call; [left; eexists; split; [reflexivity|settle]|right].
  destruct (String.eqb_spec (load input item) "") as [Hq|Hq]; simpl.
  - left. repeat split; auto. settle.
  - right.
    run_call; [left; repeat split; auto; eexists; split; [reflexivity|settle]
              |right].
    run_call; [left; repeat split; auto; eexists; split; [reflexivity|settle]
              |right].
    repeat split; auto. settle.
Qed.

Lemma item_calls_empty input session item :
  load input item = "" ->
  item_calls input session item = [OpenTransaction session WRITE].
Proof. intros H. unfold item_calls. now rewrite H. Qed.

Lemma item_calls_statement input session item :
  load input item <> "" ->
  item_calls input session item
  = [OpenTransaction session WRITE; QueryInsert (load input item); Commit].
Proof.
  intros H. unfold item_calls. apply String.eqb_neq in H. now rewrite H.
Qed.

(** A loop over the records runs to its end, every call of every record
    made and answered, or stops at the first call that raises. *)
Lemma for_items_paths env input session items : forall l w,
  let r := for_items false env input session items l w in
  (exists l',
     r = (Ret l',
          extend w [] (succeeded_calls (items_calls input session items)))) \/
  (exists e before item after done c rest,
     items = before ++ item :: after /\
     item_calls input session item = done ++ c :: rest /\
     r = (Raise e,
          extend w []
            (succeeded_calls (items_calls input session before ++ done)
             ++ [(c, Some e)]))).
Proof.
  cbv zeta.
  induction items as [|item items IH]; intros l w.
  - left. exists l. simpl. unfold ret. now rewrite extend_nil.
  - simpl for_items. unfold bind.
    pose proof (loop_body_paths env input session item l w) as Hc.
    cbv zeta in Hc.
    destruct Hc as [(e & _ & Hr)|[(Hq & _ & Hr)|[(Hq & _ & e & _ & Hr)|
                   [(Hq & _ & _ & e & _ & Hr)|(Hq & _ & _ & _ & Hr)]]]];
      rewrite Hr.
    + right. exists e, [], item, items, [], (OpenTransaction session WRITE).
      unfold item_calls. destruct (String.eqb (load input item) "");
        eexists; repeat split.
    + destruct (IH {| skip_count := skip_count l + 1;
                      input_object := Some {| object_class := input;
                                              object_item := item |} |}
                   (extend w [] [(OpenTransaction session WRITE, None)]))
        as [(l' & ->)|(e & before & it & after & done & c & rest
                       & -> & Hi & ->)].
      * left. exists l'. rewrite extend_extend. simpl.
        unfold items_calls. simpl. fold (items_calls input session items).
        now rewrite (item_calls_empty _ _ _ Hq).
      * right. exists e, (item :: before), it, after, done, c, rest.
        repeat split; auto.
        rewrite extend_extend. simpl.
        unfold items_calls at 2. simpl.
        fold (items_calls input session before).
        now rewrite (item_calls_empty _ _ _ Hq).
    + right. exists e, [], item, items, [OpenTransaction session WRITE],
               (QueryInsert (load input item)), [Commit].
      rewrite (item_calls_statement _ _ _ Hq). repeat split.
    + right. exists e, [], item, items,
               [OpenTransaction session WRITE; QueryInsert (load input item)],
               Commit, [].
      rewrite (item_calls_statement _ _ _ Hq). repeat split.
    + destruct (IH {| skip_count := skip_count l;
                      input_object := Some {| object_class := input;
                                              object_item := item |} |}
                   (extend w [] [(OpenTransaction session WRITE, None);
                                 (QueryInsert (load input item), None);
                                 (Commit, None)]))
        as [(l' & ->)|(e & before & it & after & done & c & rest
                       & -> & Hi & ->)].
      * left. exists l'. rewrite extend_extend. simpl.
        unfold items_calls. simpl. fold (items_calls input session items).
        now rewrite (item_calls_statement _ _ _ Hq).
      * right. exists e, (item :: before), it, after, done, c, rest.
        repeat split; auto.
        rewrite extend_extend. simpl.
        unfold items_calls at 2. simpl.
        fold (items_calls input session before).
        now rewrite (item_calls_statement _ _ _ Hq).
Qed.

(** What a pass does: it raises having changed nothing (the file cannot be
    read, or holds no record); or it gets through its records and prints
    its tally; or it stops at the first call that raises. *)
Lemma pass_paths env input session w :
  let r := load_data_into_typedb false env input session w in
  let items := pass_items env input in
  (exists e, r = (Raise e, w)) \/
  (items <> [] /\
   r = (Ret tt,
        extend w [pass_summary env input]
          (succeeded_calls (items_calls input session items)))) \/
  (exists e before item after done c rest,
     items = before ++ item :: after /\
     item_calls input session item = done ++ c :: rest /\
     r = (Raise e,
          extend w []
            (succeeded_calls (items_calls input session before ++ done)
             ++ [(c, Some e)]))).
Proof.
  cbv zeta. unfold load_data_into_typedb, bind, pass_summary, pass_items.
  rewrite parse_quiet.
  destruct (files env (file input)) as [text|]; [|left; eauto].
  destruct (Csv.DictReader text) as [items|]; [|left; eauto].
  destruct (for_items_paths env input session items
              {| skip_count := 0; input_object := None |} w)
    as [(l' & Hr)|(e & before & item & after & done & c & rest
                   & Hi & Hc & Hr)].
  - destruct (for_items_tally _ _ _ _ _ _ _ _ _ Hr)
      as (Hs & Hnil & Hne & _).
    rewrite Hr. destruct items as [|i0 items0].
    + rewrite (Hnil eq_refl). simpl. left. rewrite extend_nil.
      eexists. reflexivity.
    + right; left. split; [discriminate|].
      destruct (Hne ltac:(discriminate)) as (it & Ho).
      rewrite Ho. simpl. unfold print. rewrite Hs. simpl skip_count.
      rewrite Z.add_0_l. unfold extend. simpl. now rewrite app_nil_r.
  - right; right. rewrite Hr. exists e, before, item, after, done, c, rest.
    auto.
Qed.

(** *** Calls that all succeed *)







End LoadMore.

(* ===================================================================== *)
(** ** More on the bootstrap sequence                                     *)
(* ===================================================================== *)

Module BootMore.
Import Py Py.Notations Loader Spec More LoaderFacts PassFacts BootFacts.
Local Open Scope py_scope.

(** *** Composition of the calls *)

Lemma emits_bind {A B} (m : M A) (k : A -> M B) P Q R :
  emits P m -> (forall a, emits (Q a) (k a)) ->
  (forall a x r y, P (Ret a) x -> Q a r y -> R r (x ++ y)) ->
  (forall e x, P (Raise e) x -> R (Raise e) x) ->
  emits R (bind m k).
Proof.
  intros Hm Hk Hret Hraise w. unfold bind.
  destruct (Hm w) as (evs1 & Hl1 & Hp1).
  destruct (m w) as [[a|e] w1]; simpl in *.
  - destruct (Hk a w1) as (evs2 & Hl2 & Hq).
    exists (evs1 ++ evs2). rewrite Hl2, Hl1, app_assoc. eauto.
  - exists evs1. eauto.
Qed.

Lemma emits_weaken {A} (m : M A) (P Q : Res A -> _ -> Prop) :
  emits P m -> (forall r x, P r x -> Q r x) -> emits Q m.
Proof.
  intros H Hpq w. destruct (H w) as (evs & Hl & Hp). eauto.
Qed.

Lemma silent_ret {A} (a : A) : emits silent (ret a).
Proof. intros w. exists []. simpl. now rewrite app_nil_r. Qed.

Lemma silent_raise {A} e : emits silent (@raise A e).
Proof. intros w. exists []. simpl. now rewrite app_nil_r. Qed.

Lemma silent_print args : emits silent (print args).
Proof. intros w. exists []. simpl. now rewrite app_nil_r. Qed.

Lemma silent_input prompt : emits silent (builtin_input prompt).
Proof.
  intros w. exists []. unfold builtin_input.
  destruct (stdin w); simpl; now rewrite app_nil_r.
Qed.

Lemma only_silent {A} f (m : M A) : emits silent m -> emits (only f) m.
Proof.
  intros H. apply (emits_weaken _ _ _ H). intros r x ->. constructor.
Qed.

Lemma only_call env f c :
  (forall o, f (c, o) = true) -> emits (only f) (call env c).
Proof.
  intros Hf w. unfold call.
  destruct (fault env (log w) c) as [e|]; simpl;
    eexists; (split; [reflexivity|]); repeat constructor; apply Hf.
Qed.

Lemma only_bind {A B} f (m : M A) (k : A -> M B) :
  emits (only f) m -> (forall a, emits (only f) (k a)) ->
  emits (only f) (bind m k).
Proof.
  intros Hm Hk.
  apply (emits_bind m k (only f) (fun _ => only f) (only f)); auto.
  intros a x r y Hx Hy. apply Forall_app. split; assumption.
Qed.

Lemma only_disciplined {A} f (m : M A) :
  disciplined m ->
  (forall c o, loader_call c = true -> f (c, o) = true) ->
  emits (only f) m.
Proof.
  intros H Hf w. destruct (H w) as (evs & Hl & _ & Hc & _).
  exists evs. split; [assumption|].
  eapply Forall_impl; [|exact Hc]. intros [c o] Hco. now apply Hf.
Qed.

(** *** The functions of the bootstrap *)

Ltac settle_world :=
  unfold extend; simpl; rewrite ?app_nil_r, <- ?app_assoc; simpl;
  reflexivity.

(** The five ways through the existence check. *)
Lemma has_existing_data_paths env w :
  let cc := CoreClient address in
  let os := OpenSession (db env) SCHEMA in
  let ot := OpenTransaction (schema_session env) READ in
  let pq := QueryMatch typeql_read_query in
  (exists e, has_existing_data env w
             = (Raise e, extend w [] [(cc, Some e)])) \/
  (exists e, has_existing_data env w
             = (Raise e, extend w [] [(cc, None); (os, Some e)])) \/
  (exists e, has_existing_data env w
             = (Raise e, extend w [] [(cc, None); (os, None); (ot, Some e)])) \/
  (exists e, has_existing_data env w
             = (Ret false,
                extend w [] [(cc, None); (os, None); (ot, None);
                             (pq, Some e)])) \/
  has_existing_data env w
  = (Ret true,
     extend w [[PStr "The DB contains the schema and loaded data already."]]
       [(cc, None); (os, None); (ot, None); (pq, None)]).
Proof.
  cbv zeta.
  unfold has_existing_data, client_session, try_except, bind, call, ret,
    print, record_call, schema_session.
  run_call; [left; eexists; settle_world|right].
  run_call; [left; eexists; settle_world|right].
  run_call; [left; eexists; settle_world|right].
  run_call; [left; eexists; settle_world|right].
  settle_world.
Qed.

(** The seven ways through [load_schema]. *)
Lemma load_schema_paths env w :
  let cc := CoreClient address in
  let os := OpenSession (db env) SCHEMA in
  let ot := OpenTransaction (schema_session env) WRITE in
  (exists e, load_schema env w = (Raise e, extend w [] [(cc, Some e)])) \/
  (exists e, load_schema env w
             = (Raise e, extend w [] [(cc, None); (os, Some e)])) \/
  (files env "../schema.tql" = None /\
   load_schema env w
   = (Raise (FileNotFoundError "../schema.tql"),
      extend w [] [(cc, None); (os, None)])) \/
  (exists q e,
     files env "../schema.tql" = Some q /\
     load_schema env w
     = (Raise e, extend w [] [(cc, None); (os, None); (ot, Some e)])) \/
  (exists q e,
     files env "../schema.tql" = Some q /\
     load_schema env w
     = (if is_Exception e then Ret false else Raise e,
        extend w (if is_Exception e then [failure_message e] else [])
          [(cc, None); (os, None); (ot, None); (QueryDefine q, Some e)])) \/
  (exists q e,
     files env "../schema.tql" = Some q /\
     load_schema env w
     = (if is_Exception e then Ret false else Raise e,
        extend w (if is_Exception e then [failure_message e] else [])
          [(cc, None); (os, None); (ot, None); (QueryDefine q, None);
           (Commit, Some e)])) \/
  (exists q,
     files env "../schema.tql" = Some q /\
     load_schema env w
     = (Ret true,
        extend w [[PStr ("Loaded the " ++ db env ++ " schema.")]]
          [(cc, None); (os, None); (ot, None); (QueryDefine q, None);
           (Commit, None)])).
Proof.
  cbv zeta.
  unfold load_schema, client_session, open, try_except_Exception, bind,
    call, ret, raise, print, record_call, schema_session, failure_message.
  run_call; [left; eexists; settle_world|right].
  run_call; [left; eexists; settle_world|right].
  destruct (files env "../schema.tql") as [q|]; simpl;
    [right|left; split; [reflexivity|settle_world]].
  run_call; [left; exists q; eexists; split; [reflexivity|settle_world]|right].
  run_call.
  { left. exists q, e. split; [reflexivity|].
    destruct (is_Exception e); settle_world. }
  right. run_call.
  { left. exists q, e. split; [reflexivity|].
    destruct (is_Exception e); settle_world. }
  right. exists q. split; [reflexivity|settle_world].
Qed.

Ltac in_cases H :=
  simpl in H;
  repeat (destruct H as [H|H]; try discriminate H; try contradiction).

(** The existence check only reads, and swallows nothing but a failure of
    the probe query. *)
Lemma has_existing_data_calls env w :
  exists evs,
    log (snd (has_existing_data env w)) = log w ++ evs /\
    stdin (snd (has_existing_data env w)) = stdin w /\
    Forall (fun ev => probe_call (fst ev) = true) evs /\
    (fst (has_existing_data env w) = Ret true -> In probe_succeeded evs) /\
    (forall c e,
       In (c, Some e) evs -> c <> QueryMatch typeql_read_query ->
       fst (has_existing_data env w) = Raise e).
Proof.
  pose proof (has_existing_data_paths env w) as Hp. cbv zeta in Hp.
  destruct Hp as [(e & H)|[(e & H)|[(e & H)|[(e & H)|H]]]];
    rewrite H; unfold extend; simpl;
    eexists; (split; [reflexivity|]); (split; [reflexivity|]);
    (split; [repeat constructor|]);
    (split; [intros X; try discriminate X; unfold probe_succeeded;
             simpl; auto 10|]);
    intros c e' Hin Hc; in_cases Hin;
    inversion Hin; subst; try reflexivity; congruence.
Qed.

Lemma load_schema_calls env w :
  exists evs,
    log (snd (load_schema env w)) = log w ++ evs /\
    stdin (snd (load_schema env w)) = stdin w /\
    Forall (fun ev => schema_call (fst ev) = true) evs /\
    (fst (load_schema env w) = Ret true <-> In (Commit, None) evs) /\
    (fst (load_schema env w) = Ret false <->
     exists e, is_Exception e = true /\
               (In (Commit, Some e) evs \/
                exists q, In (QueryDefine q, Some e) evs)) /\
    (files env "../schema.tql" = None ->
     transactions evs = 0%Z /\
     forall b, fst (load_schema env w) <> Ret b).
Proof.
  pose proof (load_schema_paths env w) as Hp. cbv zeta in Hp.
  destruct Hp as [(e & H)|[(e & H)|[(Hf & H)|[(q & e & Hf & H)|
                 [(q & e & Hf & H)|[(q & e & Hf & H)|(q & Hf & H)]]]]]];
    rewrite H; clear H; unfold extend;
    try (destruct (is_Exception e) eqn:Hx); simpl;
    eexists; (split; [reflexivity|]); (split; [reflexivity|]);
    (split; [repeat constructor|]);
    (split; [split; intros X; try discriminate X; try reflexivity;
             try (in_cases X; fail); simpl; auto 10|]);
    (split;
     [split;
      [intros X;
       first [discriminate X
             |eexists; split; [eassumption|]; simpl; eauto 12]
      |intros (x & Hxe & [X|(q0 & X)]); in_cases X;
       inversion X; subst; try reflexivity; congruence]
     |intros X;
      first [congruence|split; [reflexivity|intros b; discriminate]]]).
Qed.

(** *** Calls of one kind *)

Lemma only_has_existing_data env f :
  (forall c o, probe_call c = true -> f (c, o) = true) ->
  emits (only f) (has_existing_data env).
Proof.
  intros Hf w.
  destruct (has_existing_data_calls env w) as (evs & Hl & _ & Hc & _).
  exists evs. split; [assumption|].
  eapply Forall_impl; [|exact Hc]. intros [c o] Hco. now apply Hf.
Qed.

Lemma only_load_schema env f :
  (forall c o, schema_call c = true -> f (c, o) = true) ->
  emits (only f) (load_schema env).
Proof.
  intros Hf w.
  destruct (load_schema_calls env w) as (evs & Hl & _ & Hc & _).
  exists evs. split; [assumption|].
  eapply Forall_impl; [|exact Hc]. intros [c o] Hco. now apply Hf.
Qed.

Lemma only_schema_then_data debug env f :
  (forall c o, schema_call c = true -> f (c, o) = true) ->
  (forall c o, loader_call c = true -> f (c, o) = true) ->
  emits (only f) (schema_then_data debug env).
Proof.
  intros Hs Hl. unfold schema_then_data.
  apply only_bind; [now apply only_load_schema|intros ok].
  destruct ok.
  - apply only_disciplined; [apply disciplined_load_data|assumption].
  - apply only_silent, silent_ret.
Qed.

(** With the flag set a data load stops in its first pass, before any
    transaction. *)
Lemma only_load_data_verbose env :
  emits (only no_insert) (load_data true env).
Proof.
  intros w.
  unfold load_data, client_session, bind, call, ret, print, record_call.
  run_call; [eexists; split; [reflexivity|repeat constructor]|].
  run_call; [rewrite <- ?app_assoc; eexists; split;
             [reflexivity|repeat constructor]|].
  destruct (Input_types_list env) as [|t rest]; simpl;
    rewrite <- ?app_assoc; eexists; (split; [reflexivity|]);
    repeat constructor.
Qed.

Lemma no_insert_main_verbose env : emits (only no_insert) (main true env).
Proof.
  assert (Hst : emits (only no_insert) (schema_then_data true env)).
  { unfold schema_then_data.
    apply only_bind;
      [apply only_load_schema; intros [] o H; try discriminate H; reflexivity
      |intros ok].
    destruct ok; [apply only_load_data_verbose|apply only_silent, silent_ret]. }
  unfold main, databases_contains.
  apply only_bind; [now apply only_call|intros _].
  apply only_bind.
  { apply only_bind; [now apply only_call|intros _].
    intros w. exists []. simpl. rewrite app_nil_r. split; [reflexivity|].
    constructor. }
  intros present. destruct present.
  - apply only_bind; [apply only_silent, silent_print|intros _].
    apply only_bind.
    { apply only_has_existing_data.
      intros [] o H; try discriminate H; reflexivity. }
    intros existing. destruct existing; simpl.
    + apply only_bind; [apply only_silent, silent_print|intros _].
      apply only_bind; [apply only_silent, silent_input|intros answer].
      destruct (confirmed answer).
      * apply only_bind; [now apply only_call|intros _].
        apply only_bind; [apply only_silent, silent_print|intros _].
        apply only_bind; [now apply only_call|intros _].
        apply only_bind; [apply only_silent, silent_print|intros _].
        exact Hst.
      * apply only_silent. unfold exit. apply silent_raise.
    + apply only_bind; [apply only_silent, silent_print|intros _].
      exact Hst.
  - apply only_bind; [apply only_silent, silent_print|intros _].
    apply only_bind; [now apply only_call|intros _].
    apply only_bind; [apply only_silent, silent_print|intros _].
    exact Hst.
Qed.

(** *** Deletion *)

Lemma no_delete_spec ev : no_delete ev = true <-> is_delete ev = false.
Proof. unfold no_delete. apply negb_true_iff. Qed.

Lemma shape_left env evs :
  Forall (fun ev => no_delete ev = true) evs -> delete_shape env evs.
Proof. now left. Qed.

Lemma shape_prefix env x y :
  Forall (fun ev => no_delete ev = true) x ->
  delete_shape env y -> delete_shape env (x ++ y).
Proof.
  intros Hx [Hy|(p & o & rest & -> & Hp & Hin & Hr)].
  - left. apply Forall_app. auto.
  - right. exists (x ++ p), o, rest. rewrite app_assoc.
    repeat split; auto.
    + apply Forall_app. auto.
    + apply in_or_app. now right.
Qed.

Lemma shape_bind {A B} env (m : M A) (k : A -> M B) :
  emits (only no_delete) m ->
  (forall a, emits (fun _ evs => delete_shape env evs) (k a)) ->
  emits (fun _ evs => delete_shape env evs) (bind m k).
Proof.
  intros Hm Hk.
  apply (emits_bind m k (only no_delete)
           (fun _ _ evs => delete_shape env evs)
           (fun _ evs => delete_shape env evs)); auto.
  - intros a x r y Hx Hy. now apply shape_prefix.
  - intros e x Hx. now left.
Qed.

Lemma tail_bind {A B} env (m : M A) (k : A -> M B) :
  emits silent m ->
  (forall a, emits (delete_tail env) (k a)) ->
  emits (delete_tail env) (bind m k).
Proof.
  intros Hm Hk.
  apply (emits_bind m k silent (fun _ => delete_tail env) (delete_tail env));
    auto.
  - intros a x r y -> Hy. exact Hy.
  - intros e x ->. left. constructor.
Qed.

Lemma no_delete_schema_then_data debug env :
  emits (only no_delete) (schema_then_data debug env).
Proof.
  apply only_schema_then_data; intros [] o H; try discriminate H; reflexivity.
Qed.

Lemma delete_then_reload debug env :
  emits (delete_tail env)
    (call env (DatabaseDelete (db env)) ;;
     print [PStr ("Deleted DB " ++ db env ++ ".")] ;;
     call env (DatabasesCreate (db env)) ;;
     print [PStr ("DB " ++ db env ++ " created. Applying schema...")] ;;
     schema_then_data debug env).
Proof.
  apply (emits_bind _ _
           (fun _ evs => exists o, evs = [(DatabaseDelete (db env), o)])
           (fun _ => only no_delete) (delete_tail env)).
  - intros w. unfold call.
    destruct (fault env (log w) (DatabaseDelete (db env))); simpl; eauto.
  - intros _.
    apply only_bind; [apply only_silent, silent_print|intros _].
    apply only_bind; [now apply only_call|intros _].
    apply only_bind; [apply only_silent, silent_print|intros _].
    apply no_delete_schema_then_data.
  - intros a x r y (o & ->) Hy. right. exists o, y. auto.
  - intros e x (o & ->). right. exists o, []. auto.
Qed.

Lemma main_delete_shape debug env :
  emits (fun _ evs => delete_shape env evs) (main debug env).
Proof.
  unfold main, databases_contains.
  apply shape_bind; [now apply only_call|intros _].
  apply shape_bind.
  { apply only_bind; [now apply only_call|intros _].
    intros w. exists []. simpl. rewrite app_nil_r. split; [reflexivity|].
    constructor. }
  intros present. destruct present.
  - apply shape_bind; [apply only_silent, silent_print|intros _].
    apply (emits_bind _ _
             (fun r evs => Forall (fun ev => no_delete ev = true) evs /\
                           (r = Ret true -> In probe_succeeded evs))
             (fun existing : bool =>
                if existing then delete_tail env else only no_delete)
             (fun _ evs => delete_shape env evs)).
    + intros w.
      destruct (has_existing_data_calls env w) as (evs & Hl & _ & Hc & Hp & _).
      exists evs. repeat split; auto.
      eapply Forall_impl; [|exact Hc].
      intros [[] o] H; try discriminate H; reflexivity.
    + intros existing. destruct existing; simpl.
      * apply tail_bind; [apply silent_print|intros _].
        apply tail_bind; [apply silent_input|intros answer].
        destruct (confirmed answer).
        -- apply delete_then_reload.
        -- intros w. exists []. simpl. rewrite app_nil_r.
           split; [reflexivity|]. left. constructor.
      * apply only_bind; [apply only_silent, silent_print|intros _].
        apply no_delete_schema_then_data.
    + intros existing x r y [Hx Hp] Hy. destruct existing.
      * destruct Hy as [Hy|(o & rest & -> & Hr)].
        -- left. apply Forall_app. auto.
        -- right. exists x, o, rest. auto.
      * left. apply Forall_app. auto.
    + intros e x [Hx _]. now left.
  - apply (emits_weaken _ (only no_delete)); [|intros r x Hx; now left].
    apply only_bind; [apply only_silent, silent_print|intros _].
    apply only_bind; [now apply only_call|intros _].
    apply only_bind; [apply only_silent, silent_print|intros _].
    apply no_delete_schema_then_data.
Qed.

Lemma silent_verbosity verbose : emits silent (verbosity verbose).
Proof.
  intros w. exists []. unfold verbosity.
  destruct verbose; simpl; now rewrite app_nil_r.
Qed.

(** The calls of a whole run with respect to deletion. *)
Lemma run_delete_shape verbose env input_lines :
  delete_shape env (log (snd (run verbose env input_lines))).
Proof.
  unfold run.
  assert (H : emits (fun _ evs => delete_shape env evs)
                (debug <- verbosity verbose ;; main debug env)).
  { apply (emits_bind _ _ silent
             (fun _ _ evs => delete_shape env evs)
             (fun _ evs => delete_shape env evs)).
    - apply silent_verbosity.
    - intros d. apply main_delete_shape.
    - intros a x r y -> Hy. exact Hy.
    - intros e x ->. left. constructor. }
  destruct (H (start input_lines)) as (evs & Hl & Hs).
  simpl in Hl. rewrite Hl. exact Hs.
Qed.

(** The place of the one call of a kind among calls of other kinds. *)
Lemma unique_position (f : Call * option Exn -> bool) p :
  forall x rest pre y post,
    p ++ x :: rest = pre ++ y :: post ->
    Forall (fun ev => f ev = false) p ->
    Forall (fun ev => f ev = false) rest ->
    f y = true ->
    pre = p /\ y = x /\ post = rest.
Proof.
  induction p as [|a p IH]; intros x rest pre y post H Hp Hr Hy.
  - destruct pre as [|z pre]; simpl in H.
    + inversion H; subst. auto.
    + inversion H; subst. exfalso.
      apply Forall_app in Hr. destruct Hr as [_ Hr].
      inversion Hr as [|? ? Hx _]; subst. congruence.
  - inversion Hp as [|? ? Ha Hp']; subst.
    destruct pre as [|z pre]; simpl in H.
    + inversion H; subst. congruence.
    + inversion H; subst.
      destruct (IH _ _ _ _ _ H2 Hp' Hr Hy) as (-> & -> & ->). auto.
Qed.

Lemma run_no_insert_verbose env input_lines :
  Forall (fun ev => no_insert ev = true)
         (log (snd (run true env input_lines))).
Proof.
  change (run true env input_lines)
    with (main true env
            {| stdin := input_lines;
               stdout := [[PStr "High verbosity option turned on."]];
               log := [] |}).
  match goal with
  | |- context [main true env ?w0] =>
      destruct (no_insert_main_verbose env w0) as (evs & Hl & Hs)
  end.
  cbn [log app] in Hl. rewrite Hl. exact Hs.
Qed.

(** *** Walking a path of the main body *)

Ltac split_calls Ha :=
  simpl in Ha;
  repeat match type of Ha with
         | match fault ?e ?l ?c with _ => _ end = true =>
             let E := fresh "Ef" in
             destruct (fault e l c) eqn:E; [discriminate Ha|]
         end.

Ltac use_answers env :=
  repeat (match goal with
          | H : fault env ?l ?c = _ |- context [fault env ?l ?c] =>
              rewrite H
          | H : contains env ?l = _ |- context [contains env ?l] =>
              rewrite H
          | H : files env ?p = _ |- context [files env ?p] =>
              rewrite H
          | |- context [confirmed ?a] =>
              rewrite (confirmed_always a)
          end; cbv beta iota).

(** Up to the schema load, which is left as it stands. *)
Ltac walk_to_schema env :=
  cbv beta iota zeta delta
    [run verbosity main has_existing_data databases_contains client_session
     try_except builtin_input prompt_output verbosity_output bind call ret
     raise print record_call start exit app stdin stdout log succeeded_calls
     map probe_calls before_probe_calls absent_calls schema_session negb];
  use_answers env.

(** Through the schema load as well. *)
Ltac walk_through_schema env :=
  cbv beta iota zeta delta
    [run verbosity main schema_then_data has_existing_data load_schema
     databases_contains client_session try_except try_except_Exception open
     builtin_input prompt_output verbosity_output bind call ret raise print
     record_call start exit app stdin stdout log succeeded_calls map
     probe_calls reset_start_calls schema_session negb];
  use_answers env.

(** *** Paths with their answers *)

(** The existence check when its client, session and transaction open:
    the probe query is made, and its answer is the result. *)
Lemma has_existing_data_run env w :
  all_succeed env (log w) (check_calls env) = true ->
  let answer := fault env (log w ++ succeeded_calls (check_calls env))
                  (QueryMatch typeql_read_query) in
  has_existing_data env w
  = (Ret (match answer with None => true | Some _ => false end),
     extend w
       (match answer with
        | None => [[PStr "The DB contains the schema and loaded data already."]]
        | Some _ => []
        end)
       (succeeded_calls (check_calls env)
        ++ [(QueryMatch typeql_read_query, answer)])).
Proof.
  intros Ha. unfold check_calls, schema_session in *.
  split_calls Ha. cbv zeta.
  unfold has_existing_data, client_session, try_except, bind, call, ret,
    print, record_call.
  rewrite Ef. simpl. rewrite Ef0. simpl. rewrite Ef1. simpl.
  rewrite <- !app_assoc. simpl.
  destruct (fault env _ (QueryMatch typeql_read_query)); simpl;
    unfold extend; simpl; rewrite ?app_nil_r, <- ?app_assoc; reflexivity.
Qed.


End BootMore.

(* ===================================================================== *)
(** ** The claims                                                         *)
(* ===================================================================== *)

Import More.

(** C1 does not hold of the script: the test of the confirmation prompt is
    true of every answer, so a run in which the user declines goes on
    exactly as one in which the user enters the confirmation word.  Against
    the bookstore with its data present and the answer "no", the seventh
    call of the run deletes the database, the run reloads the data and ends
    normally; the branch that would leave the database alone is never
    taken. *)
Theorem C1_declined_confirmation_still_deletes :
  (forall answer, confirmed answer = true) /\
  nth_error (log (snd (run false (shop books_csv no_fault true) ["no"]))) 6
  = Some (DatabaseDelete "bookstore", None) /\
  submissions (log (snd (run false (shop books_csv no_fault true) ["no"]))) = 2 /\
  run false (shop books_csv no_fault true) ["no"]
  = run false (shop books_csv no_fault true) ["delete"] /\
  fst (run false (shop books_csv no_fault true) ["no"]) = Ret tt.
Proof.
  split; [exact BootFacts.confirmed_always|].
  repeat split; vm_compute; reflexivity.
Qed.

(** C2, as the script has it: a failed submission is not swallowed.  When
    a call of a load pass raises (the submission of a record's insert
    statement among them), the pass ends with that exception at that call:
    no call follows it, no tally is printed, and the records after that one
    are not processed.  The records before it have been processed in the
    order of the file, each with all its calls answered without error, and
    the failed call is the next call of its record (for a submission: the
    one after the opening of the record's transaction).  A pass that
    completes has made the calls of every record in the order of the file,
    none of them raising, and reports as inserted the number of records
    with a non-empty statement, each of which was submitted and committed;
    what the database did with a statement is not looked at. *)
Theorem C2_failed_submission_ends_pass :
  forall debug env input session w,
    (forall pre c e post,
       log (snd (load_data_into_typedb debug env input session w))
       = log w ++ pre ++ (c, Some e) :: post ->
       fst (load_data_into_typedb debug env input session w) = Raise e /\
       post = [] /\
       Forall succeeded pre /\
       stdout (snd (load_data_into_typedb debug env input session w))
       = stdout w /\
       exists before item after done rest,
         pass_items env input = before ++ item :: after /\
         item_calls input session item = done ++ c :: rest /\
         pre = succeeded_calls (items_calls input session before ++ done) /\
         (forall q, c = QueryInsert q ->
                    q = load input item /\
                    done = [OpenTransaction session WRITE])) /\
    (fst (load_data_into_typedb debug env input session w) = Ret tt ->
     log (snd (load_data_into_typedb debug env input session w))
     = log w ++ succeeded_calls
                  (items_calls input session (pass_items env input)) /\
     stdout (snd (load_data_into_typedb debug env input session w))
     = stdout w ++
       [[PStr ("Inserted "
               ++ str (len (submitted_items input (pass_items env input)))
               ++ " out of " ++ str (len (pass_items env input))
               ++ " items from [ " ++ file input ++ "] into TypeDB with");
         PStr (__name__ input)]]).
Proof.
  intros debug env input session w.
  destruct debug.
  { rewrite PassFacts.pass_verbose. simpl. split; [|discriminate].
    intros pre c e post H. exfalso.
    rewrite <- (app_nil_r (log w)) in H at 1.
    apply app_inv_head in H. destruct pre; discriminate. }
  pose proof (LoadMore.pass_paths env input session w) as Hp.
  cbv zeta in Hp.
  destruct Hp as [(e0 & Hr)|[(Hne & Hr)|(e0 & before & item & after & done
                                         & c0 & rest & Hi & Hc & Hr)]];
    rewrite Hr; simpl; (split; [intros pre c e post H|intros H]);
    try discriminate H.
  - exfalso. rewrite <- (app_nil_r (log w)) in H at 1.
    apply app_inv_head in H. destruct pre; discriminate.
  - exfalso. apply app_inv_head in H.
    eapply PassFacts.succeeded_no_failure;
      [apply LoadMore.succeeded_calls_ok|exact H].
  - split; [reflexivity|]. unfold pass_summary, summary.
    pose proof (PassFacts.partition_len input (pass_items env input)) as P.
    replace (len (pass_items env input)
             - len (skipped_items input (pass_items env input)))
      with (len (submitted_items input (pass_items env input))) by lia.
    reflexivity.
  - apply app_inv_head in H. symmetry in H.
    destruct (PassFacts.failed_is_last _ _ _ _ _ _ H
                (LoadMore.succeeded_calls_ok _)) as (-> & -> & Hx).
    inversion Hx; subst c0 e0.
    repeat split; auto using LoadMore.succeeded_calls_ok, app_nil_r.
    exists before, item, after, done, rest.
    repeat split; auto.
    + subst c. revert Hc. unfold item_calls.
      destruct (String.eqb (load input item) "");
        destruct done as [|d0 [|d1 [|d2 done]]]; simpl; intros X;
        inversion X; subst; try reflexivity;
        destruct done; discriminate.
    + subst c. revert Hc. unfold item_calls.
      destruct (String.eqb (load input item) "");
        destruct done as [|d0 [|d1 [|d2 done]]]; simpl; intros X;
        inversion X; subst; try reflexivity;
        destruct done; discriminate.
Qed.

Lemma C2_failed_submission_ends_pass_witness :
  (fst (load_data_into_typedb false (shop books_csv later_insert_fails true)
          BookInput data_session (start []))
   = Raise invalid_insert /\
   @nil (Call * option Exn) = [] /\
   Forall succeeded
     (succeeded_calls
        [OpenTransaction data_session WRITE; QueryInsert dune_insert; Commit;
         OpenTransaction data_session WRITE;
         OpenTransaction data_session WRITE]) /\
   stdout (snd (load_data_into_typedb false
                  (shop books_csv later_insert_fails true)
                  BookInput data_session (start [])))
   = stdout (start []) /\
   exists before item after done rest,
     pass_items (shop books_csv later_insert_fails true) BookInput
     = before ++ item :: after /\
     item_calls BookInput data_session item
     = done ++ QueryInsert ulysses_insert :: rest /\
     succeeded_calls
       [OpenTransaction data_session WRITE; QueryInsert dune_insert; Commit;
        OpenTransaction data_session WRITE;
        OpenTransaction data_session WRITE]
     = succeeded_calls (items_calls BookInput data_session before ++ done) /\
     (forall q, QueryInsert ulysses_insert = QueryInsert q ->
                q = load BookInput item /\
                done = [OpenTransaction data_session WRITE])) /\
  (log (snd (load_data_into_typedb false (shop books_csv no_fault true)
               BookInput data_session (start [])))
   = log (start []) ++
     succeeded_calls (items_calls BookInput data_session [dune; emma; ulysses]) /\
   stdout (snd (load_data_into_typedb false (shop books_csv no_fault true)
                  BookInput data_session (start [])))
   = stdout (start []) ++
     [[PStr "Inserted 2 out of 3 items from [ data/books.csv] into TypeDB with";
       PStr "BookInput"]]).
Proof.
  split.
  - apply (proj1 (C2_failed_submission_ends_pass false
                    (shop books_csv later_insert_fails true) BookInput
                    data_session (start []))
             (succeeded_calls
                [OpenTransaction data_session WRITE; QueryInsert dune_insert;
                 Commit; OpenTransaction data_session WRITE;
                 OpenTransaction data_session WRITE])
             (QueryInsert ulysses_insert) invalid_insert []).
    vm_compute. reflexivity.
  - apply (proj2 (C2_failed_submission_ends_pass false
                    (shop books_csv no_fault true) BookInput
                    data_session (start []))).
    vm_compute. reflexivity.
Defined.

(** C2 as stated fails: with the three books and a server that rejects the
    first insert statement, the submission of the first record fails and the
    pass is over: it ends with the client's exception, the third book is
    never submitted and no tally is printed. *)
Lemma C2_failed_insert_not_swallowed :
  ~ failed_insert_swallowed false (shop books_csv first_insert_fails true)
      BookInput data_session (start []).
Proof.
  unfold failed_insert_swallowed. intros H.
  destruct (H [(OpenTransaction data_session WRITE, None)]
              dune_insert invalid_insert [] eq_refl)
    as (text & items & _ & _ & Hr & _).
  vm_compute in Hr. discriminate Hr.
Qed.

(** C3: a load pass that completes has printed a tally in which the number
    reported as inserted (the number of insert statements it submitted) and
    the number counted as skipped add up to the number of records parsed
    from the file of its builder class. *)
Theorem C3_inserted_plus_skipped_is_total :
  forall debug env input session w w',
    load_data_into_typedb debug env input session w = (Ret tt, w') ->
    exists text items inserted skipped evs,
      files env (file input) = Some text /\
      Csv.DictReader text = Some items /\
      skipped = len (skipped_items input items) /\
      log w' = log w ++ evs /\
      inserted = submissions evs /\
      stdout w' =
      stdout w ++
      [[PStr ("Inserted " ++ str inserted ++ " out of " ++ str (len items)
              ++ " items from [ " ++ file input ++ "] into TypeDB with");
        PStr (__name__ input)]] /\
      inserted + skipped = len items.
Proof.
  intros debug env input session w w' H.
  destruct (PassFacts.pass_completed _ _ _ _ _ _ H)
    as (_ & text & items & evs & Hf & Hd & _ & Hl & Hsub & Hout).
  exists text, items, (submissions evs), (len (skipped_items input items)), evs.
  pose proof (PassFacts.partition_len input items) as Hp.
  repeat split; auto.
  - rewrite Hout. unfold summary.
    replace (len items - len (skipped_items input items))
      with (submissions evs) by lia.
    reflexivity.
  - rewrite Hsub. exact Hp.
Qed.

Lemma C3_inserted_plus_skipped_is_total_witness :
  exists text items inserted skipped evs,
    files (shop books_csv no_fault true) (file BookInput) = Some text /\
    Csv.DictReader text = Some items /\
    skipped = len (skipped_items BookInput items) /\
    log (snd (load_data_into_typedb false (shop books_csv no_fault true)
                BookInput data_session (start [])))
    = log (start []) ++ evs /\
    inserted = submissions evs /\
    stdout (snd (load_data_into_typedb false (shop books_csv no_fault true)
                   BookInput data_session (start [])))
    = stdout (start []) ++
      [[PStr ("Inserted " ++ str inserted ++ " out of " ++ str (len items)
              ++ " items from [ " ++ file BookInput ++ "] into TypeDB with");
        PStr (__name__ BookInput)]] /\
    inserted + skipped = len items.
Proof.
  apply (C3_inserted_plus_skipped_is_total false (shop books_csv no_fault true)
           BookInput data_session (start [])).
  vm_compute. reflexivity.
Defined.



(** C5: in every run, whatever the client answers, an insert statement is
    submitted only after the schema definition has been submitted and its
    transaction committed, both without error; and when the submission of
    the schema definition or its commit raises, no insert statement is
    submitted in that run and the failure is reported by the message of
    [load_schema] (for every exception [except Exception] catches). *)
Theorem C5_no_insert_before_committed_schema :
  forall verbose env input_lines,
    (forall pre q o post,
       log (snd (run verbose env input_lines))
       = pre ++ (QueryInsert q, o) :: post ->
       exists a d b,
         pre = a ++ (QueryDefine d, None) :: (Commit, None) :: b) /\
    (forall pre d e post,
       log (snd (run verbose env input_lines))
       = pre ++ (QueryDefine d, Some e) :: post \/
       log (snd (run verbose env input_lines))
       = pre ++ (QueryDefine d, None) :: (Commit, Some e) :: post ->
       submissions (log (snd (run verbose env input_lines))) = 0 /\
       (is_Exception e = true ->
        In (failure_message e) (stdout (snd (run verbose env input_lines))))).
Proof.
  intros verbose env input_lines.
  pose proof (BootFacts.run_shape verbose env input_lines) as Hs.
  split.
  - exact (BootFacts.shape_orders_inserts _ _ Hs).
  - exact (BootFacts.shape_failed_schema _ _ Hs).
Qed.

Lemma C5_no_insert_before_committed_schema_witness :
  (exists a d b,
     succeeded_calls
       ([CoreClient address; DatabasesContains "bookstore";
         DatabasesCreate "bookstore"; CoreClient address;
         OpenSession "bookstore" SCHEMA;
         OpenTransaction (schema_session (shop books_csv no_fault false)) WRITE;
         QueryDefine schema_tql; Commit; CoreClient address;
         OpenSession "bookstore" DATA; OpenTransaction data_session WRITE])
     = a ++ (QueryDefine d, None) :: (Commit, None) :: b) /\
  submissions (log (snd (run false (shop books_csv define_fails false) [])))
  = 0 /\
  In (failure_message invalid_schema)
     (stdout (snd (run false (shop books_csv define_fails false) []))).
Proof.
  split.
  - apply (proj1 (C5_no_insert_before_committed_schema false
                    (shop books_csv no_fault false) []))
      with (q := dune_insert) (o := None)
           (post := [(Commit, None);
                     (OpenTransaction data_session WRITE, None);
                     (OpenTransaction data_session WRITE, None);
                     (QueryInsert
                        "insert $b isa book, has ISBN 9780199535675;", None);
                     (Commit, None)]).
    vm_compute. reflexivity.
  - assert (Hx : is_Exception invalid_schema = true) by reflexivity.
    destruct (proj2 (C5_no_insert_before_committed_schema false
                       (shop books_csv define_fails false) [])
                (succeeded_calls
                   [CoreClient address; DatabasesContains "bookstore";
                    DatabasesCreate "bookstore"; CoreClient address;
                    OpenSession "bookstore" SCHEMA;
                    OpenTransaction
                      (schema_session (shop books_csv define_fails false))
                      WRITE])
                schema_tql invalid_schema []
                (or_introl eq_refl)) as [H0 Hm].
    split; [exact H0|exact (Hm Hx)].
Defined.

(** C6: the existence check returns True exactly when the probe query was
    made and succeeded, and False exactly when the probe query was made and
    raised, whatever the exception; in that case nothing is raised and
    nothing is printed.  And the probe query is attempted: whenever the
    client, the schema session and the read transaction could be opened,
    the calls of the check are these three followed by the probe query,
    with the answer the server gave to it. *)
Theorem C6_probe_outcome_decides :
  forall env w,
  exists evs,
    log (snd (has_existing_data env w)) = log w ++ evs /\
    (fst (has_existing_data env w) = Ret true <->
     In (QueryMatch typeql_read_query, None) evs) /\
    (fst (has_existing_data env w) = Ret false <->
     exists e, In (QueryMatch typeql_read_query, Some e) evs) /\
    (forall e,
       In (QueryMatch typeql_read_query, Some e) evs ->
       fst (has_existing_data env w) = Ret false /\
       stdout (snd (has_existing_data env w)) = stdout w) /\
    (all_succeed env (log w) (check_calls env) = true ->
     evs = succeeded_calls (check_calls env)
           ++ [(QueryMatch typeql_read_query,
                fault env (log w ++ succeeded_calls (check_calls env))
                  (QueryMatch typeql_read_query))]).
Proof.
  intros env w.
  pose proof (BootMore.has_existing_data_run env w) as Hrun.
  pose proof (BootMore.has_existing_data_paths env w) as Hp. cbv zeta in Hp.
  destruct Hp as [(e & H)|[(e & H)|[(e & H)|[(e & H)|H]]]];
    rewrite H in *; unfold extend; simpl;
    eexists; (split; [reflexivity|]);
    (split; [split; intros X; try discriminate X; simpl; auto 10;
             BootMore.in_cases X|]);
    (split; [split;
             [intros X; try discriminate X; simpl; eauto 10
             |intros (e' & X); BootMore.in_cases X; reflexivity]|]);
    (split; [intros e' X; BootMore.in_cases X;
             try (split; [reflexivity|apply app_nil_r])|]);
    intros Ha; specialize (Hrun Ha); cbv zeta in Hrun;
    apply (f_equal (fun r => log (snd r))) in Hrun; simpl in Hrun;
    apply app_inv_head in Hrun; exact Hrun.
Qed.

Lemma C6_probe_outcome_decides_witness :
  (fst (has_existing_data (shop books_csv probe_fails true) (start []))
   = Ret false /\
   stdout (snd (has_existing_data (shop books_csv probe_fails true) (start [])))
   = stdout (start [])) /\
  (fst (has_existing_data (shop books_csv no_fault true) (start []))
   = Ret true /\
   log (snd (has_existing_data (shop books_csv no_fault true) (start [])))
   = succeeded_calls (check_calls (shop books_csv no_fault true)
                      ++ [QueryMatch typeql_read_query])).
Proof.
  split.
  - destruct (C6_probe_outcome_decides (shop books_csv probe_fails true)
                (start [])) as (evs & Hl & _ & _ & H & _).
    apply (H (TypeDBClientException "the type 'book' does not exist")).
    vm_compute in Hl. rewrite <- Hl. simpl. auto 10.
  - destruct (C6_probe_outcome_decides (shop books_csv no_fault true)
                (start [])) as (evs & Hl & Ht & _ & _ & H).
    specialize (H eq_refl). split.
    + apply Ht. rewrite H. vm_compute. auto 10.
    + rewrite Hl, H. reflexivity.
Defined.

(** C7 does not hold of the script: with the flag set, the first diagnostic
    of [parse_data_to_dictionaries] subscripts the builder class and raises
    before the file is opened.  Against an absent database, the run without
    the flag submits the two insert statements of the bookstore and ends
    normally; the run with the flag makes the same calls up to the opening
    of the data session, then ends with the TypeError, having submitted
    nothing. *)
Theorem C7_verbose_run_fails_before_loading :
  fst (run false (shop books_csv no_fault false) []) = Ret tt /\
  submissions (log (snd (run false (shop books_csv no_fault false) []))) = 2 /\
  fst (run true (shop books_csv no_fault false) [])
  = Raise subscript_error /\
  submissions (log (snd (run true (shop books_csv no_fault false) []))) = 0 /\
  log (snd (run true (shop books_csv no_fault false) []))
  = firstn 10 (log (snd (run false (shop books_csv no_fault false) []))).
Proof.
  repeat split; vm_compute; reflexivity.
Qed.

(** C8, as the script has it: for a file (that can be opened and that the
    reader accepts) none of whose fields holds a line break, the reader
    yields one row per line, the empty row exactly on the blank lines, and
    a run without the verbosity flag parses exactly one record per line
    after the first that is not blank, in the order of the file.  Each
    record is its row read against the fields of the first line: its field
    names are exactly those fields, under each of them it holds the field
    of its row in that column ([None] when the row is too short; the last
    column of that name, should the first line repeat it), and the surplus
    fields of a longer row are kept under the key [None].  The
    number of records is the number of lines minus one when the file has a
    first line and no blank line after it. *)
Theorem C8_one_record_per_nonblank_line :
  forall env input w text rows,
    files env (file input) = Some text ->
    Csv.reader (Csv.readlines text) = Some rows ->
    Csv.no_embedded_newline rows = true ->
    exists items,
      parse_data_to_dictionaries false env input w = (Ret items, w) /\
      Forall2 (fun l row => Csv.is_blank_row row = Csv.blank_line l)
        (Csv.readlines text) rows /\
      length items
      = length (filter (fun l => negb (Csv.blank_line l))
                       (tl (Csv.readlines text))) /\
      Forall2 (record_of (hd [] rows)) items
        (filter (fun row => negb (Csv.is_blank_row row)) (tl rows)) /\
      (Csv.readlines text <> [] ->
       forallb (fun l => negb (Csv.blank_line l)) (tl (Csv.readlines text))
       = true ->
       len items = len (Csv.readlines text) - 1).
Proof.
  intros env input w text rows Hf Hr Hn.
  destruct (CsvFacts.DictReader_count _ _ Hr Hn) as [Hd Hc].
  exists (Csv.DictReader_rows rows).
  rewrite PassFacts.parse_quiet, Hf, Hd.
  split; [reflexivity|]. split.
  { apply CsvFacts.rows_follow_lines; auto.
    apply CsvFacts.readlines_from_terminated. }
  split; [exact Hc|].
  split; [apply CsvMore.DictReader_rows_records|].
  intros Hne Hb. unfold len.
  rewrite Hc, (CsvFacts.filter_all_length _ _ Hb).
  destruct (Csv.readlines text); [contradiction|].
  simpl length. lia.
Qed.

Lemma C8_one_record_per_nonblank_line_witness :
  exists items,
    parse_data_to_dictionaries false (shop spaced_books_csv no_fault true)
      BookInput (start [])
    = (Ret items, start []) /\
    length items = 2%nat /\
    Forall2 (record_of ["title"; "author"; "ISBN"]) items
      [["Dune"; "Herbert"; "9780441172719"];
       ["Ulysses"; "Joyce"; "9780199535675"]].
Proof.
  destruct (C8_one_record_per_nonblank_line
              (shop spaced_books_csv no_fault true) BookInput (start [])
              spaced_books_csv
              [["title"; "author"; "ISBN"];
               ["Dune"; "Herbert"; "9780441172719"];
               [];
               ["Ulysses"; "Joyce"; "9780199535675"]]
              eq_refl eq_refl eq_refl) as (items & Hp & _ & Hc & Hk & _).
  exists items. split; [exact Hp|]. split; [exact Hc|exact Hk].
Defined.

(** C8 as stated fails: the file of the bookstore with an empty line between
    its two data rows has four lines and no line break inside a field, and
    the parser yields two records, not three: [DictReader] skips the empty
    row. *)
Lemma C8_blank_line_yields_no_record :
  ~ parser_yields_lines_minus_one (shop spaced_books_csv no_fault true)
      BookInput (start []).
Proof.
  intros H.
  destruct (H spaced_books_csv
              [["title"; "author"; "ISBN"];
               ["Dune"; "Herbert"; "9780441172719"];
               [];
               ["Ulysses"; "Joyce"; "9780199535675"]]
              eq_refl eq_refl eq_refl) as (items & Hp & Hn).
  vm_compute in Hp. inversion Hp; subst items.
  vm_compute in Hn. discriminate Hn.
Qed.




(** C10, as the script has it: a pass over a file from which the parser
    yields no record (a header line only, a header followed by blank lines,
    or an empty file) raises, having printed nothing (no "0 out of 0") and
    made no call: in a run without the verbosity flag, the unbound-local
    error for [input_object] where the summary line is built; in a run with
    the flag, the TypeError of the first diagnostic of the parser, before
    the file is opened. *)
Theorem C10_header_only_file_raises_unbound_local :
  forall debug env input session w text,
    files env (file input) = Some text ->
    Csv.DictReader text = Some [] ->
    load_data_into_typedb debug env input session w
    = (Raise (if debug then subscript_error
              else UnboundLocalError "input_object"), w).
Proof.
  intros debug env input session w text Hf Hr.
  destruct debug; [apply PassFacts.pass_verbose|].
  unfold load_data_into_typedb, bind.
  rewrite PassFacts.parse_quiet, Hf, Hr. reflexivity.
Qed.

Lemma C10_header_only_file_raises_unbound_local_witness :
  load_data_into_typedb false (shop header_only_csv no_fault true) BookInput
    data_session (start [])
  = (Raise (UnboundLocalError "input_object"), start []) /\
  load_data_into_typedb false (shop header_and_blank_lines_csv no_fault true)
    BookInput data_session (start [])
  = (Raise (UnboundLocalError "input_object"), start []) /\
  load_data_into_typedb true (shop header_only_csv no_fault true) BookInput
    data_session (start [])
  = (Raise subscript_error, start []).
Proof.
  split; [|split].
  - apply (C10_header_only_file_raises_unbound_local false
             (shop header_only_csv no_fault true) BookInput data_session
             (start []) header_only_csv); vm_compute; reflexivity.
  - apply (C10_header_only_file_raises_unbound_local false
             (shop header_and_blank_lines_csv no_fault true) BookInput
             data_session (start []) header_and_blank_lines_csv);
      vm_compute; reflexivity.
  - apply (C10_header_only_file_raises_unbound_local true
             (shop header_only_csv no_fault true) BookInput data_session
             (start []) header_only_csv); vm_compute; reflexivity.
Defined.

(** C10 as stated fails: with the verbosity flag set, the pass over the
    books file with the header line only does not raise the unbound-local
    error; it ends with the TypeError of the parser's diagnostic. *)
Lemma C10_verbose_pass_raises_type_error :
  ~ empty_file_raises_unbound_local true (shop header_only_csv no_fault true)
      BookInput data_session (start []).
Proof.
  intros H. specialize (H header_only_csv eq_refl eq_refl).
  vm_compute in H. discriminate H.
Qed.

(* ===================================================================== *)
(** ** Further properties                                                 *)
(* ===================================================================== *)

(** X1: the record parser on a file of plain lines.  When every line of the
    file, the header included, holds plain fields separated by the
    delimiter (no quote, no line break, spaces allowed in front of a field),
    a run without the verbosity flag parses one record per data line: the
    row of the fields of that line, without the spaces in front of them,
    against the fields of the header line. *)
Theorem X1_plain_file_parses_to_its_fields :
  forall env input w header lines,
    Forall plain_line (header :: lines) ->
    files env (file input) = Some (csv_text (header :: lines)) ->
    parse_data_to_dictionaries false env input w
    = (Ret (map (Csv.make_row (map snd header)) (map (map snd) lines)), w).
Proof.
  intros env input w header lines Hp Hf.
  rewrite PassFacts.parse_quiet, Hf. unfold Csv.DictReader.
  rewrite (CsvMore.readlines_csv_text _ Hp), (CsvMore.reader_plain_lines _ Hp).
  simpl. inversion Hp; subst.
  now rewrite CsvMore.plain_rows_kept.
Qed.

Lemma X1_plain_file_parses_to_its_fields_witness :
  parse_data_to_dictionaries false
    (shop (csv_text [catalogue_header; padded_line]) no_fault true)
    BookInput (start [])
  = (Ret [[(Some "title", Csv.VStr "Dune");
           (Some "author", Csv.VStr "Frank Herbert");
           (Some "ISBN", Csv.VStr "")]],
     start []).
Proof.
  apply (X1_plain_file_parses_to_its_fields
           (shop (csv_text [catalogue_header; padded_line]) no_fault true)
           BookInput (start []) catalogue_header [padded_line]).
  - repeat constructor; discriminate.
  - reflexivity.
Defined.

(** X2: what a record holds.  When the field names of the header are
    distinct, a record has a value for every one of them: the field of the
    row in that column, or [None] when the row is too short to have one; the
    surplus fields of a row longer than the header are kept as a list under
    the key [None], which is absent otherwise.  So looking a header column
    up in a record never misses. *)
Theorem X2_record_has_every_header_column :
  forall fieldnames row,
    NoDup fieldnames ->
    (forall i k,
       nth_error fieldnames i = Some k ->
       Csv.dict_get (Some k) (Csv.make_row fieldnames row)
       = Some (column_value row i)) /\
    Csv.dict_get None (Csv.make_row fieldnames row)
    = (if Nat.ltb (length fieldnames) (length row)
       then Some (Csv.VList (skipn (length fieldnames) row))
       else None).
Proof.
  intros fieldnames row Hn. split.
  - intros i k Hk. now apply CsvMore.make_row_lookup.
  - now apply CsvMore.make_row_restkey.
Qed.

Lemma X2_record_has_every_header_column_witness :
  Csv.dict_get (Some "ISBN")
    (Csv.make_row ["title"; "author"; "ISBN"] ["Emma"; "Austen"])
  = Some Csv.VNone /\
  Csv.dict_get None
    (Csv.make_row ["title"; "author"; "ISBN"] ["Emma"; "Austen"])
  = None.
Proof.
  assert (Hn : NoDup ["title"; "author"; "ISBN"]).
  { repeat constructor; simpl; intuition discriminate. }
  destruct (X2_record_has_every_header_column
              ["title"; "author"; "ISBN"] ["Emma"; "Austen"] Hn) as [Hl Hr].
  split; [exact (Hl 2%nat "ISBN" eq_refl)|exact Hr].
Defined.

(** X3: the record parser never yields more records than the file has lines
    after the first, whatever the file holds (quoted fields that span lines
    and blank lines only lower the number); and parsing changes nothing of
    the state of the run. *)
Theorem X3_records_bounded_by_lines :
  forall debug env input w items w',
    parse_data_to_dictionaries debug env input w = (Ret items, w') ->
    w' = w /\
    exists text,
      files env (file input) = Some text /\
      (length items <= Nat.pred (length (Csv.readlines text)))%nat.
Proof.
  intros debug env input w items w' H.
  destruct debug; [rewrite PassFacts.parse_verbose in H; discriminate H|].
  rewrite PassFacts.parse_quiet in H.
  destruct (files env (file input)) as [text|] eqn:Hf; [|discriminate H].
  unfold Csv.DictReader, Csv.reader in H.
  destruct (Csv.reader_from Csv.parse_reset (Csv.readlines text))
    as [rows|] eqn:Hr; simpl in H; [|discriminate H].
  inversion H; subst. split; [reflexivity|].
  exists text. split; [reflexivity|].
  destruct (CsvMore.reader_from_bound _ _ _ Hr) as [_ Hb].
  specialize (Hb eq_refl).
  pose proof (CsvMore.DictReader_rows_bound rows). lia.
Qed.

Lemma X3_records_bounded_by_lines_witness :
  start [] = start [] /\
  exists text,
    files (shop spaced_books_csv no_fault true) (file BookInput) = Some text /\
    (length [Csv.make_row ["title"; "author"; "ISBN"]
               ["Dune"; "Herbert"; "9780441172719"];
             Csv.make_row ["title"; "author"; "ISBN"]
               ["Ulysses"; "Joyce"; "9780199535675"]]
     <= Nat.pred (length (Csv.readlines text)))%nat.
Proof.
  apply (X3_records_bounded_by_lines false
           (shop spaced_books_csv no_fault true) BookInput (start [])).
  vm_compute. reflexivity.
Defined.

(** X4: one write transaction per record.  A load pass that completes has
    opened exactly one write transaction for every record parsed from the
    file, the skipped ones included, and has committed exactly as many as it
    has submitted insert statements, one for every record with a non-empty
    statement; none of its calls raised. *)
Theorem X4_one_transaction_per_record :
  forall debug env input session w w',
    load_data_into_typedb debug env input session w = (Ret tt, w') ->
    exists evs,
      log w' = log w ++ evs /\
      Forall succeeded evs /\
      transactions evs = len (pass_items env input) /\
      commits evs = submissions evs /\
      submissions evs = len (submitted_items input (pass_items env input)) /\
      transactions evs - commits evs
      = len (skipped_items input (pass_items env input)).
Proof.
  intros debug env input session w w' H.
  destruct (LoadMore.pass_calls _ _ _ _ _ _ H)
    as (_ & _ & _ & _ & evs & Hl & Hok & Ht & Hc & Hs).
  exists evs. repeat split; auto; try congruence.
  pose proof (PassFacts.partition_len input (pass_items env input)). lia.
Qed.

Lemma X4_one_transaction_per_record_witness :
  exists evs,
    log (snd (load_data_into_typedb false (shop books_csv no_fault true)
                BookInput data_session (start [])))
    = log (start []) ++ evs /\
    Forall succeeded evs /\
    transactions evs = len (pass_items (shop books_csv no_fault true) BookInput) /\
    commits evs = submissions evs /\
    submissions evs
    = len (submitted_items BookInput
             (pass_items (shop books_csv no_fault true) BookInput)) /\
    transactions evs - commits evs
    = len (skipped_items BookInput
             (pass_items (shop books_csv no_fault true) BookInput)).
Proof.
  apply (X4_one_transaction_per_record false (shop books_csv no_fault true)
           BookInput data_session (start [])).
  vm_compute. reflexivity.
Defined.

(** X5: a whole load against a client that never raises.  When every builder
    class has a file that parses to at least one record, a data load without
    the verbosity flag returns normally; it has printed the tally of each
    builder class, in the order of the list, and then the completion line,
    has read nothing from standard input, and the number of insert
    statements it has submitted is the number of non-empty statements over
    all the files. *)
Theorem X5_load_data_over_all_types :
  forall env w,
    never_fails env ->
    (forall t, In t (Input_types_list env) -> pass_items env t <> []) ->
    exists w',
      load_data false env w = (Ret tt, w') /\
      stdin w' = stdin w /\
      stdout w' = stdout w ++ map (pass_summary env) (Input_types_list env)
                  ++ [completion_line] /\
      exists evs,
        log w' = log w ++ evs /\
        Forall succeeded evs /\
        submissions evs = total_submitted env (Input_types_list env).
Proof.
  intros env w H Hne.
  unfold load_data, client_session, bind.
  repeat (rewrite LoadMore.call_ok by assumption; simpl).
  match goal with
  | |- context [for_input_types false env ?s ?l ?w0] =>
      destruct (LoadMore.for_input_types_ok env s l w0 H Hne)
        as (w1 & Hr & Hin & Hout & evs & Hl & Hok & Hs)
  end.
  rewrite Hr. unfold print. eexists. split; [reflexivity|]. simpl.
  rewrite Hin, Hout, Hl. simpl. rewrite <- !app_assoc. simpl.
  repeat split; auto.
  eexists. split; [reflexivity|]. split.
  - repeat (constructor; [reflexivity|]). assumption.
  - exact Hs.
Qed.

Lemma X5_load_data_over_all_types_witness :
  exists w',
    load_data false (shop books_csv no_fault true) (start []) = (Ret tt, w') /\
    stdin w' = stdin (start []) /\
    stdout w'
    = stdout (start [])
      ++ map (pass_summary (shop books_csv no_fault true))
             (Input_types_list (shop books_csv no_fault true))
      ++ [completion_line] /\
    exists evs,
      log w' = log (start []) ++ evs /\
      Forall succeeded evs /\
      submissions evs
      = total_submitted (shop books_csv no_fault true)
          (Input_types_list (shop books_csv no_fault true)).
Proof.
  apply (X5_load_data_over_all_types (shop books_csv no_fault true) (start [])).
  - intros done c. reflexivity.
  - intros t [<-|[]]. vm_compute. discriminate.
Defined.

(** X6: the completion line is printed exactly when the data load returns
    normally: a load that a failing call or pass has ended never prints it,
    and no tally or diagnostic line is mistaken for it. *)
Theorem X6_completion_line_iff_load_returns :
  forall debug env w,
  exists outs,
    stdout (snd (load_data debug env w)) = stdout w ++ outs /\
    (fst (load_data debug env w) = Ret tt <-> In completion_line outs).
Proof. exact LoadMore.load_data_output. Qed.

(** X7: the existence check only reads.  [has_existing_data] makes no call
    but the opening of a client, of a schema session and of a read
    transaction and the probe query, and reads nothing from standard input;
    and the only failure it swallows is that of the probe query: when the
    client, the session or the transaction cannot be opened, it raises what
    that call raised. *)
Theorem X7_existence_check_only_reads :
  forall env w,
  exists evs,
    log (snd (has_existing_data env w)) = log w ++ evs /\
    stdin (snd (has_existing_data env w)) = stdin w /\
    Forall (fun ev => probe_call (fst ev) = true) evs /\
    (forall c e,
       In (c, Some e) evs -> c <> QueryMatch typeql_read_query ->
       fst (has_existing_data env w) = Raise e).
Proof.
  intros env w.
  destruct (BootMore.has_existing_data_calls env w)
    as (evs & Hl & Hi & Hc & _ & He).
  exists evs. auto.
Qed.

(** X8: what [load_schema] returns.  It makes only the calls of a schema
    load and reads nothing from standard input; it returns True exactly when
    the commit of the definition succeeded, and False exactly when the
    submission of the definition or its commit raised an [Exception]; when
    the schema file cannot be opened, it opens no transaction and does not
    return at all. *)
Theorem X8_load_schema_result :
  forall env w,
  exists evs,
    log (snd (load_schema env w)) = log w ++ evs /\
    stdin (snd (load_schema env w)) = stdin w /\
    Forall (fun ev => schema_call (fst ev) = true) evs /\
    (fst (load_schema env w) = Ret true <-> In (Commit, None) evs) /\
    (fst (load_schema env w) = Ret false <->
     exists e, is_Exception e = true /\
               (In (Commit, Some e) evs \/
                exists q, In (QueryDefine q, Some e) evs)) /\
    (files env "../schema.tql" = None ->
     transactions evs = 0 /\
     forall b, fst (load_schema env w) <> Ret b).
Proof. exact BootMore.load_schema_calls. Qed.

(** X9: a reset without the schema file.  Against a database that is present
    and answers the probe query, whatever line is entered at the prompt,
    when the schema file cannot be opened the run has already deleted the
    database and created it anew when it fails with the file error: it ends
    with [FileNotFoundError] right after opening the schema session, no
    definition submitted and no data loaded. *)
Theorem X9_reset_without_schema_file_empties_database :
  forall verbose env answer rest,
    contains env (succeeded_calls
                    [CoreClient address; DatabasesContains (db env)]) = true ->
    files env "../schema.tql" = None ->
    all_succeed env [] (probe_calls env ++ reset_start_calls env) = true ->
    run verbose env (answer :: rest)
    = (Raise (FileNotFoundError "../schema.tql"),
       {| stdin := rest;
          stdout := prompt_output verbose env ++
                    [[PStr ("Deleted DB " ++ db env ++ ".")];
                     [PStr ("DB " ++ db env ++ " created. Applying schema...")]];
          log := succeeded_calls (probe_calls env ++ reset_start_calls env) |}).
Proof.
  intros verbose env answer rest Hc Hf Ha.
  unfold probe_calls, reset_start_calls, schema_session in *.
  simpl in Hc. BootMore.split_calls Ha.
  destruct verbose; BootMore.walk_through_schema env; reflexivity.
Qed.

Lemma X9_reset_without_schema_file_empties_database_witness :
  run false (shop_without_schema true) ["no"]
  = (Raise (FileNotFoundError "../schema.tql"),
     {| stdin := [];
        stdout := prompt_output false (shop_without_schema true) ++
                  [[PStr "Deleted DB bookstore."];
                   [PStr "DB bookstore created. Applying schema..."]];
        log := succeeded_calls
                 (probe_calls (shop_without_schema true) ++
                  reset_start_calls (shop_without_schema true)) |}).
Proof.
  apply (X9_reset_without_schema_file_empties_database false
           (shop_without_schema true) "no" []); reflexivity.
Defined.

(** X10: end of input at the prompt.  Against a database that is present and
    answers the probe query, a run whose standard input is empty ends with
    [EOFError] at the prompt; its calls are those up to the probe query, so
    the database is neither deleted nor written. *)
Theorem X10_end_of_input_at_prompt_leaves_database :
  forall verbose env,
    contains env (succeeded_calls
                    [CoreClient address; DatabasesContains (db env)]) = true ->
    all_succeed env [] (probe_calls env) = true ->
    run verbose env []
    = (Raise EOFError,
       {| stdin := [];
          stdout := prompt_output verbose env;
          log := succeeded_calls (probe_calls env) |}).
Proof.
  intros verbose env Hc Ha.
  unfold probe_calls, schema_session in *.
  simpl in Hc. BootMore.split_calls Ha.
  destruct verbose; BootMore.walk_through_schema env; reflexivity.
Qed.

Lemma X10_end_of_input_at_prompt_leaves_database_witness :
  run false (shop books_csv no_fault true) []
  = (Raise EOFError,
     {| stdin := [];
        stdout := prompt_output false (shop books_csv no_fault true);
        log := succeeded_calls (probe_calls (shop books_csv no_fault true)) |}).
Proof.
  apply (X10_end_of_input_at_prompt_leaves_database false
           (shop books_csv no_fault true)); reflexivity.
Defined.

(** X11: an absent database.  When the client answers that the database is
    not there, the run creates it and goes on with the schema and the data
    as [schema_then_data] does from there: it has made no other call (no
    probe query, no deletion) and has read nothing from standard input. *)
Theorem X11_absent_database_is_created_then_loaded :
  forall verbose env input_lines,
    contains env (succeeded_calls
                    [CoreClient address; DatabasesContains (db env)]) = false ->
    all_succeed env [] (absent_calls env) = true ->
    run verbose env input_lines
    = schema_then_data verbose env
        {| stdin := input_lines;
           stdout := verbosity_output verbose ++
                     [[PStr ("DB " ++ db env ++ " is absent. Trying to create.")];
                      [PStr ("DB " ++ db env ++ " created. Applying schema...")]];
           log := succeeded_calls (absent_calls env) |}.
Proof.
  intros verbose env input_lines Hc Ha.
  unfold absent_calls in *.
  simpl in Hc. BootMore.split_calls Ha.
  destruct verbose; BootMore.walk_to_schema env; reflexivity.
Qed.

Lemma X11_absent_database_is_created_then_loaded_witness :
  run false (shop books_csv no_fault false) []
  = schema_then_data false (shop books_csv no_fault false)
      {| stdin := [];
         stdout := verbosity_output false ++
                   [[PStr "DB bookstore is absent. Trying to create."];
                    [PStr "DB bookstore created. Applying schema..."]];
         log := succeeded_calls (absent_calls (shop books_csv no_fault false)) |}.
Proof.
  apply (X11_absent_database_is_created_then_loaded false
           (shop books_csv no_fault false) []); reflexivity.
Defined.

(** X12: a database without data.  When the database is present and the
    probe query raises, whatever it raises, the run neither prompts nor
    deletes nor creates: it prints that it attempts to load and goes on with
    the schema and the data as [schema_then_data] does from there, the
    failure of the probe being its last call so far and nothing of it
    printed. *)
Theorem X12_database_without_data_is_loaded_in_place :
  forall verbose env input_lines e,
    contains env (succeeded_calls
                    [CoreClient address; DatabasesContains (db env)]) = true ->
    all_succeed env [] (before_probe_calls env) = true ->
    fault env (succeeded_calls (before_probe_calls env))
      (QueryMatch typeql_read_query) = Some e ->
    run verbose env input_lines
    = schema_then_data verbose env
        {| stdin := input_lines;
           stdout := verbosity_output verbose ++
                     [[PStr ("Detected DB " ++ db env ++ ". Connecting.")];
                      [PStr "Attempting to load the schema and data."]];
           log := succeeded_calls (before_probe_calls env) ++
                  [(QueryMatch typeql_read_query, Some e)] |}.
Proof.
  intros verbose env input_lines e Hc Ha He.
  unfold before_probe_calls, schema_session in *.
  simpl in Hc, He. BootMore.split_calls Ha.
  destruct verbose; BootMore.walk_to_schema env; reflexivity.
Qed.

Lemma X12_database_without_data_is_loaded_in_place_witness :
  run false (shop books_csv probe_fails true) []
  = schema_then_data false (shop books_csv probe_fails true)
      {| stdin := [];
         stdout := verbosity_output false ++
                   [[PStr "Detected DB bookstore. Connecting."];
                    [PStr "Attempting to load the schema and data."]];
         log := succeeded_calls
                  (before_probe_calls (shop books_csv probe_fails true)) ++
                [(QueryMatch typeql_read_query,
                  Some (TypeDBClientException
                          "the type 'book' does not exist"))] |}.
Proof.
  apply (X12_database_without_data_is_loaded_in_place false
           (shop books_csv probe_fails true) []); reflexivity.
Defined.

(** X13: when the database is deleted.  In every run, whatever the client
    answers and whatever is entered, the database is deleted at most once,
    it is the configured database, and the deletion comes after the probe
    query has succeeded: a database that is absent, or on which the probe
    query fails, is never deleted. *)
Theorem X13_deletion_only_after_successful_probe :
  forall verbose env input_lines pre d o post,
    log (snd (run verbose env input_lines))
    = pre ++ (DatabaseDelete d, o) :: post ->
    d = db env /\
    In probe_succeeded pre /\
    Forall (fun ev => no_delete ev = true) pre /\
    Forall (fun ev => no_delete ev = true) post.
Proof.
  intros verbose env input_lines pre d o post H.
  destruct (BootMore.run_delete_shape verbose env input_lines)
    as [Hn|(p & o' & rest & He & Hp & Hin & Hr)].
  - exfalso. rewrite H in Hn. apply Forall_app in Hn. destruct Hn as [_ Hn].
    inversion Hn as [|? ? Hx _]. discriminate Hx.
  - rewrite H in He. symmetry in He.
    destruct (BootMore.unique_position is_delete p _ _ _ _ _ He)
      as (-> & Hy & ->); try reflexivity.
    + eapply Forall_impl; [|exact Hp]. intros ev. apply BootMore.no_delete_spec.
    + eapply Forall_impl; [|exact Hr]. intros ev. apply BootMore.no_delete_spec.
    + inversion Hy; subst. auto.
Qed.

Lemma X13_deletion_only_after_successful_probe_witness :
  "bookstore" = db (shop books_csv no_fault true) /\
  In probe_succeeded
     (succeeded_calls (probe_calls (shop books_csv no_fault true))) /\
  Forall (fun ev => no_delete ev = true)
         (succeeded_calls (probe_calls (shop books_csv no_fault true))) /\
  Forall (fun ev => no_delete ev = true)
         (skipn 7 (log (snd (run false (shop books_csv no_fault true) ["no"])))).
Proof.
  apply (X13_deletion_only_after_successful_probe false
           (shop books_csv no_fault true) ["no"]
           (succeeded_calls (probe_calls (shop books_csv no_fault true)))
           "bookstore" None).
  vm_compute. reflexivity.
Defined.

(** X14: with the verbosity flag set, no run ever submits an insert
    statement, whatever the database, the files and the input: every data
    load stops at the first diagnostic of the record parser. *)
Theorem X14_verbose_run_submits_nothing :
  forall env input_lines,
    Forall (fun ev => no_insert ev = true)
           (log (snd (run true env input_lines))) /\
    submissions (log (snd (run true env input_lines))) = 0.
Proof.
  intros env input_lines.
  pose proof (BootMore.run_no_insert_verbose env input_lines) as H.
  split; [exact H|].
  unfold submissions, len.
  induction H as [|ev l Hev _ IH]; simpl; [reflexivity|].
  unfold no_insert in Hev. apply negb_true_iff in Hev. now rewrite Hev.
Qed.

(** X15: what a pass submits.  The insert statements submitted by a load
    pass that completes are exactly the non-empty statements the builder
    class returns for the records of its file, each once and in the order of
    the file. *)
Theorem X15_pass_submits_the_statements_in_file_order :
  forall debug env input session w w',
    load_data_into_typedb debug env input session w = (Ret tt, w') ->
    exists evs,
      log w' = log w ++ evs /\
      inserted_statements evs
      = map (load input) (submitted_items input (pass_items env input)).
Proof.
  intros debug env input session w w' H.
  destruct (PassFacts.pass_completed _ _ _ _ _ _ H)
    as (-> & text & items & _ & Hf & Hd & _).
  unfold load_data_into_typedb, bind in H.
  rewrite PassFacts.parse_quiet, Hf, Hd in H.
  destruct (for_items false env input session items _ w) as [[l|e] w1] eqn:Ef;
    [|discriminate].
  destruct (LoadMore.for_items_statements _ _ _ _ _ _ _ _ _ Ef)
    as (evs & Hl & Hs).
  destruct (input_object l); simpl in H; [|discriminate].
  unfold print in H. inversion H; subst w'. simpl.
  exists evs. split; [assumption|].
  unfold pass_items. now rewrite Hf, Hd.
Qed.

Lemma X15_pass_submits_the_statements_in_file_order_witness :
  exists evs,
    log (snd (load_data_into_typedb false (shop books_csv no_fault true)
                BookInput data_session (start [])))
    = log (start []) ++ evs /\
    inserted_statements evs
    = map (load BookInput)
          (submitted_items BookInput
             (pass_items (shop books_csv no_fault true) BookInput)).
Proof.
  apply (X15_pass_submits_the_statements_in_file_order false
           (shop books_csv no_fault true) BookInput data_session (start [])).
  vm_compute. reflexivity.
Defined.
